(** * Paginated iterator requests of the NetApp cDOT client

    A shallow embedding of [Client.send_iter_request] and
    [Client._get_record_count] from
    [cinder/volume/drivers/netapp/dataontap/client/client_cmode.py],
    together with the properties of the page-merging protocol. *)

From Stdlib Require Import ZArith Ascii String List DecimalString DecimalZ.
From stdpp Require Import gmap strings list fin_maps.

Set Warnings "-register-all".

Local Open Scope Z_scope.
Local Open Scope string_scope.
Local Open Scope list_scope.

(** ** Python values used by the request code *)

(** Exceptions that can leave [send_iter_request].  Whatever the transport
    raises travels through [send_request] as an [exn] as well. *)
Inductive exn :=
  | NetAppDriverException (msg : string)
  | TypeError
  | ValueError
  | AttributeError
  | NaApiError (code : string) (message : string)
  | StopIteration.

(** Values stored in an [api_args] dictionary.  They are immutable here:
    nothing in [send_iter_request] writes below the top level of the
    dictionary, so [copy.deepcopy] and a copy of the top level agree. *)
Inductive pyval :=
  | PNone
  | PInt (z : Z)
  | PStr (s : string)
  | PList (l : list pyval)
  | PDict (kvs : list (string * pyval)).

(** ** [int(...)] and [six.text_type(...)] on record counts *)

Module PyInt.

(** Characters dropped by [int] around a literal. *)
Definition is_space (a : ascii) : bool :=
  let n := nat_of_ascii a in
  ((9 <=? n) && (n <=? 13))%nat || (n =? 32)%nat.

Fixpoint lstrip (s : string) : string :=
  match s with
  | String a r => if is_space a then lstrip r else s
  | EmptyString => EmptyString
  end.

Fixpoint rstrip (s : string) : string :=
  match s with
  | String a r =>
      match rstrip r with
      | EmptyString => if is_space a then EmptyString else String a EmptyString
      | r' => String a r'
      end
  | EmptyString => EmptyString
  end.

Definition strip (s : string) : string := lstrip (rstrip s).

Definition is_digit (a : ascii) : bool :=
  let n := nat_of_ascii a in ((48 <=? n) && (n <=? 57))%nat.

Fixpoint all_digits (s : string) : bool :=
  match s with
  | String a r => is_digit a && all_digits r
  | EmptyString => true
  end.

(** A non-empty run of decimal digits. *)
Definition digits (s : string) : option Z :=
  match s with
  | EmptyString => None
  | _ => option_map Z.of_uint (NilEmpty.uint_of_string s)
  end.

(** [int(s)] for a text [s]: [None] stands for [ValueError].  What is read
    is the decimal literal, a sign or none and digits [0] to [9] with blanks
    around.  The underscores between digits and the digits of other scripts
    that [int] of Python 3 reads as well are not read here, so the facts
    that name the error of [int] are about a count that is absent, a count
    that is read here, or a count given outright. *)
Definition of_text (s : string) : option Z :=
  match strip s with
  | String "+" r => digits r
  | String "-" r => option_map Z.opp (digits r)
  | t => digits t
  end.

(** [int(x)] where [x] is a text or [None]. *)
Definition int (x : option string) : exn + Z :=
  match x with
  | None => inl TypeError
  | Some s =>
      match of_text s with
      | Some z => inr z
      | None => inl ValueError
      end
  end.

(** [six.text_type(z)] for an integer [z]. *)
Definition text_type (z : Z) : string :=
  NilEmpty.string_of_int (Z.to_int z).

End PyInt.

(** ** Response elements *)

(** Modelled from the spec: [netapp_api.NaElement] (module [api], not part
    of the sources at hand) is the tree a page arrives in.  An element has a
    tag name, an optional text and an ordered list of children; the methods
    below are those that [send_iter_request] calls on it.  A page is an
    element whose children ["num-records"], ["attributes-list"] and
    ["next-tag"] carry the record count, the items and the continuation
    token.  Tags are compared as plain names, and an element counts as true
    whatever it holds, so that [if not attributes_list] asks whether there
    is such a child at all. *)
Inductive NaElement :=
  | NaElem (name : string) (content : option string) (children : list NaElement).

Module Na.

Definition get_name (e : NaElement) : string :=
  match e with NaElem n _ _ => n end.

Definition get_content (e : NaElement) : option string :=
  match e with NaElem _ c _ => c end.

Definition get_children (e : NaElement) : list NaElement :=
  match e with NaElem _ _ cs => cs end.

Definition set_content (text : string) (e : NaElement) : NaElement :=
  match e with NaElem n _ cs => NaElem n (Some text) cs end.

Definition add_child_elem (child : NaElement) (e : NaElement) : NaElement :=
  match e with NaElem n c cs => NaElem n c (cs ++ [child]) end.

Fixpoint find_child (n : string) (cs : list NaElement) : option NaElement :=
  match cs with
  | [] => None
  | c :: rest => if String.eqb (get_name c) n then Some c else find_child n rest
  end.

(** First child carrying the tag [n], or [None]. *)
Definition get_child_by_name (e : NaElement) (n : string) : option NaElement :=
  find_child n (get_children e).

(** Text of the first child carrying the tag [n], or [None]. *)
Definition get_child_content (e : NaElement) (n : string) : option string :=
  match get_child_by_name e n with
  | Some c => get_content c
  | None => None
  end.

(** [get_child_by_name] hands out a handle on the child inside its parent:
    a change made through the handle is a change of the parent.  [on_child]
    applies such a change to the first child carrying the tag [n]. *)
Fixpoint alter_child (n : string) (f : NaElement -> NaElement)
    (cs : list NaElement) : list NaElement :=
  match cs with
  | [] => []
  | c :: rest =>
      if String.eqb (get_name c) n then f c :: rest
      else c :: alter_child n f rest
  end.

Definition on_child (n : string) (f : NaElement -> NaElement)
    (e : NaElement) : NaElement :=
  match e with NaElem m c cs => NaElem m c (alter_child n f cs) end.

(** A change that keeps the tag of the element it is applied to. *)
Definition keeps_name (f : NaElement -> NaElement) : Prop :=
  forall c, get_name (f c) = get_name c.

End Na.

(** ** The store, the transport and the effects of the client *)

Definition loc := positive.

(** What the transport answers to one request. *)
Definition response : Type := exn + NaElement.

(** One invocation of [send_request]: the dictionary object passed, what
    it held at that moment, and what came back. *)
Record call := Call {
  call_api : string;
  call_ref : loc;
  call_args : gmap string pyval;
  call_tunneling : bool;
  call_response : response
}.

Inductive outcome (A : Type) :=
  | Return (a : A)
  | Raise (e : exn)
  | OutOfFuel.
Arguments Return {A} a.
Arguments Raise {A} e.
Arguments OutOfFuel {A}.

Definition DEFAULT_MAX_PAGE_LENGTH : Z := 50.

Definition missing_record_count : string :=
  "Missing record count for NetApp iterator API invocation.".

Definition missing_attributes_list (api_name : string) : string :=
  "Missing attributes list for API " +:+ api_name +:+ ".".

(** Truth value of [next_tag], a text or [None]. *)
Definition truthy (x : option string) : bool :=
  match x with
  | Some (String _ _) => true
  | _ => false
  end.

Section Client.

(** [send_request] belongs to the base client; it is one round-trip to
    the storage controller, taken here as a transition of the state [FS]
    of whatever answers. *)
Context {FS : Type}.
Variable transport : FS -> string -> gmap string pyval -> bool -> FS * response.

(** Dictionaries live in [heap]; [calls] is the trace of requests sent,
    latest last. *)
Record world := World {
  heap : gmap loc (gmap string pyval);
  server : FS;
  calls : list call
}.

Definition M (A : Type) : Type := world -> outcome A * world.

Definition ret {A} (a : A) : M A := fun w => (Return a, w).

Definition raise {A} (e : exn) : M A := fun w => (Raise e, w).

Definition out_of_fuel {A} : M A := fun w => (OutOfFuel, w).

Definition bind {A B} (m : M A) (k : A -> M B) : M B :=
  fun w =>
    match m w with
    | (Return a, w') => k a w'
    | (Raise e, w') => (Raise e, w')
    | (OutOfFuel, w') => (OutOfFuel, w')
    end.

Notation "'do' x <- m ; k" := (bind m (fun x => k))
  (at level 10, x pattern, m at level 100, k at level 200,
   format "'[v' 'do'  x  <-  m ; '/' k ']'").

(** A new dictionary object holding [d]. *)
Definition alloc (d : gmap string pyval) : M loc :=
  fun w =>
    let l := fresh (dom (heap w)) in
    (Return l, World (<[l := d]> (heap w)) (server w) (calls w)).

Definition load (l : loc) : M (gmap string pyval) :=
  fun w => (Return (default ∅ (heap w !! l)), w).

(** [d[k] = v] on the object at [l]. *)
Definition setitem (l : loc) (k : string) (v : pyval) : M unit :=
  fun w => (Return tt, World (alter (insert k v) l (heap w)) (server w) (calls w)).

(** [copy.deepcopy(d)]. *)
Definition deepcopy (l : loc) : M loc :=
  do d <- load l; alloc d.

Definition send_request (api_name : string) (api_args : loc)
    (enable_tunneling : bool) : M NaElement :=
  fun w =>
    let args := default ∅ (heap w !! api_args) in
    let (s', r) := transport (server w) api_name args enable_tunneling in
    let w' := World (heap w) s'
                (calls w ++ [Call api_name api_args args enable_tunneling r]) in
    match r with
    | inr page => (Return page, w')
    | inl e => (Raise e, w')
    end.

Definition _get_record_count (api_result_element : NaElement) : M Z :=
  match PyInt.int (Na.get_child_content api_result_element "num-records") with
  | inr n => ret n
  | inl TypeError => raise (NetAppDriverException missing_record_count)
  | inl e => raise e
  end.

(** [result.get_child_by_name(n).set_content(text)]. *)
Definition set_child_content (n : string) (text : string)
    (result : NaElement) : M NaElement :=
  match Na.get_child_by_name result n with
  | Some _ => ret (Na.on_child n (Na.set_content text) result)
  | None => raise AttributeError
  end.

(** The records of one page go to the end of the first page's list. *)
Definition save_records (records : list NaElement) (result : NaElement)
    : NaElement :=
  fold_left
    (fun r record => Na.on_child "attributes-list" (Na.add_child_elem record) r)
    records result.

(** The [while next_tag is not None] loop; [fuel] bounds its iterations. *)
Fixpoint remaining_pages (fuel : nat) (api_name : string) (api_args : loc)
    (enable_tunneling : bool) (result : NaElement) (num_records : Z)
    (next_tag : option string) : M (NaElement * Z) :=
  match next_tag with
  | None => ret (result, num_records)
  | Some tag =>
      match fuel with
      | O => out_of_fuel
      | S fuel' =>
          do next_api_args <- deepcopy api_args;
          do _ <- setitem next_api_args "tag" (PStr tag);
          do next_result <- send_request api_name next_api_args enable_tunneling;
          let next_attributes_list :=
            default (NaElem "none" None [])
              (Na.get_child_by_name next_result "attributes-list") in
          let result :=
            save_records (Na.get_children next_attributes_list) result in
          do n <- _get_record_count next_result;
          remaining_pages fuel' api_name api_args enable_tunneling result
            (num_records + n) (Na.get_child_content next_result "next-tag")
      end
  end.

Definition send_iter_request (fuel : nat) (api_name : string)
    (api_args : option loc) (enable_tunneling : bool)
    (max_page_length : Z) : M NaElement :=
  do api_args <-
    match api_args with
    | None => alloc ∅
    | Some l =>
        do d <- load l;
        if decide (d = ∅) then alloc ∅ else ret l
    end;
  do _ <- setitem api_args "max-records" (PInt max_page_length);
  do result <- send_request api_name api_args enable_tunneling;
  let next_tag := Na.get_child_content result "next-tag" in
  if negb (truthy next_tag) then ret result
  else
    do num_records <- _get_record_count result;
    match Na.get_child_by_name result "attributes-list" with
    | None => raise (NetAppDriverException (missing_attributes_list api_name))
    | Some _ =>
        do (result, num_records) <-
          remaining_pages fuel api_name api_args enable_tunneling
            result num_records next_tag;
        do result <- set_child_content "num-records"
                       (PyInt.text_type num_records) result;
        set_child_content "next-tag" "" result
    end.

End Client.

Arguments world : clear implicits.
Arguments M : clear implicits.

(** ** Pages and a scripted transport *)

(** The three fields of a page, as [send_iter_request] reads them. *)
Definition next_tag_of (p : NaElement) : option string :=
  Na.get_child_content p "next-tag".

Definition num_records_of (p : NaElement) : option string :=
  Na.get_child_content p "num-records".

Definition items_of (p : NaElement) : list NaElement :=
  match Na.get_child_by_name p "attributes-list" with
  | Some a => Na.get_children a
  | None => []
  end.

Definition has_attributes_list (p : NaElement) : bool :=
  match Na.get_child_by_name p "attributes-list" with
  | Some _ => true
  | None => false
  end.

(** The record count a page declares, when it is an integer literal. *)
Definition declared_count (p : NaElement) : option Z :=
  match num_records_of p with
  | Some s => PyInt.of_text s
  | None => None
  end.

(** A page with the given fields; a field that is [None] is left out. *)
Definition field (n : string) (text : option string) : list NaElement :=
  match text with
  | Some t => [NaElem n (Some t) []]
  | None => []
  end.

Definition mk_page (attributes_list : option (list NaElement))
    (next_tag num_records : option string) : NaElement :=
  NaElem "results" None
    (match attributes_list with
     | Some records => [NaElem "attributes-list" None records]
     | None => []
     end ++ field "next-tag" next_tag ++ field "num-records" num_records).

(** A transport that answers the scripted responses in turn, whatever is
    asked, and has nothing left to say when the script is over. *)
Definition scripted (s : list response) (_ : string)
    (_ : gmap string pyval) (_ : bool) : list response * response :=
  match s with
  | r :: rest => (rest, r)
  | [] => ([], inl StopIteration)
  end.

(** ** The first request *)

(** What the caller's dictionary holds when the call starts ([{}] when the
    caller passes [None]). *)
Definition original_args (api_args : option loc)
    (h : gmap loc (gmap string pyval)) : gmap string pyval :=
  match api_args with
  | Some l => default ∅ (h !! l)
  | None => ∅
  end.

(** The dictionary object the requests are built on: the caller's own
    object when it holds something, a new one otherwise. *)
Definition request_ref (api_args : option loc)
    (h : gmap loc (gmap string pyval)) : loc :=
  match api_args with
  | Some l => if decide (default ∅ (h !! l) = ∅) then fresh (dom h) else l
  | None => fresh (dom h)
  end.

(** The arguments of the first request. *)
Definition first_args (api_args : option loc) (max_page_length : Z)
    (h : gmap loc (gmap string pyval)) : gmap string pyval :=
  <["max-records" := PInt max_page_length]> (original_args api_args h).

(** The store once the page length is written. *)
Definition request_heap (api_args : option loc) (max_page_length : Z)
    (h : gmap loc (gmap string pyval)) : gmap loc (gmap string pyval) :=
  <[request_ref api_args h := first_args api_args max_page_length h]> h.

(** The arguments of a request for the page after [tag]. *)
Definition next_args (args : gmap string pyval) (tag : string)
    : gmap string pyval :=
  <["tag" := PStr tag]> args.

(** The last lines of [send_iter_request], after the loop: write the
    total and clear the tag. *)
Definition finish {FS} (pr : NaElement * Z) : M FS NaElement :=
  bind (set_child_content "num-records" (PyInt.text_type pr.2) pr.1)
    (fun result => set_child_content "next-tag" "" result).

(** ** Sequences of pages *)

Definition has_tag (p : NaElement) : bool :=
  match next_tag_of p with Some _ => true | None => false end.

Definition countable (p : NaElement) : bool :=
  match declared_count p with Some _ => true | None => false end.

(** A page after the first that promises more: the loop goes on. *)
Definition continuing (p : NaElement) : bool := countable p && has_tag p.

(** A page after the first that ends the listing. *)
Definition closing (p : NaElement) : bool := countable p && negb (has_tag p).

(** The pages after the first: all continuing but the last, which closes. *)
Fixpoint tail_ok (ps : list NaElement) : bool :=
  match ps with
  | [] => false
  | [p] => closing p
  | p :: rest => continuing p && tail_ok rest
  end.

(** A first page that promises more and can take it. *)
Definition opening (p : NaElement) : bool :=
  truthy (next_tag_of p) && countable p && has_attributes_list p.

(** A whole listing: either one page whose tag is [None] or empty, or an
    opening page followed by a good tail. *)
Definition listing_ok (p0 : NaElement) (ps : list NaElement) : bool :=
  match ps with
  | [] => negb (truthy (next_tag_of p0))
  | _ => opening p0 && tail_ok ps
  end.

(** The first page once the records of the pages [ps] are saved into it. *)
Definition save_all (ps : list NaElement) (result : NaElement) : NaElement :=
  fold_left (fun r p => save_records (items_of p) r) ps result.

(** Sum of the record counts the pages declare. *)
Definition total_declared (ps : list NaElement) : Z :=
  fold_right (fun p acc => default 0 (declared_count p) + acc) 0 ps.

(** The requests of the loop, as a chain: each asks with the original
    arguments and the tag of the page before it. *)
Fixpoint follows (api : string) (tun : bool) (args : gmap string pyval)
    (tag : string) (cs : list call) : Prop :=
  match cs with
  | [] => True
  | c :: rest =>
      call_api c = api /\ call_tunneling c = tun /\
      call_args c = next_args args tag /\
      match rest with
      | [] => True
      | _ => exists p t, call_response c = inr p /\ next_tag_of p = Some t /\
                         follows api tun args t rest
      end
  end.

(** The pages fetched before some later round-trip: none, or an opening
    page and continuing ones. *)
Definition leading (pre : list NaElement) : bool :=
  match pre with
  | [] => true
  | p0 :: mid => opening p0 && forallb continuing mid
  end.

(** Responses by what they mean for the loop. *)
Definition carries_tag (r : response) : bool :=
  match r with inr p => has_tag p | inl _ => false end.

Definition goes_on (r : response) : bool :=
  match r with inr p => continuing p | inl _ => false end.

Definition starts (r : response) : bool :=
  match r with inr p => opening p | inl _ => false end.

(** A transport that answers the same page to every request. *)
Definition always (p : NaElement) (s : unit) (_ : string)
    (_ : gmap string pyval) (_ : bool) : unit * response :=
  (s, inr p).

(** A page of a multi-page call without a record count. *)
Definition no_count (p : NaElement) : bool :=
  match num_records_of p with None => true | Some _ => false end.

(** The page after the pages [pre] breaks the call: it has no record
    count, or it is the first page and carries a tag, an integer count and
    no attributes list. *)
Definition malformed (pre : list NaElement) (p : NaElement) : bool :=
  match pre with
  | [] =>
      truthy (next_tag_of p) &&
      (no_count p || (countable p && negb (has_attributes_list p)))
  | _ => no_count p
  end.

(** What a multi-page call returns: the first page with the records of
    the later pages saved into it, the total written and the tag cleared. *)
Definition merged (p0 : NaElement) (ps : list NaElement) : NaElement :=
  Na.on_child "next-tag" (Na.set_content "")
    (Na.on_child "num-records"
       (Na.set_content (PyInt.text_type (total_declared (p0 :: ps))))
       (save_all ps p0)).

(** ** Sample data *)

Module Sample.

Definition disk (n : string) : NaElement :=
  NaElem "storage-disk-info" None [NaElem "disk-name" (Some n) []].

(** A listing in three pages declaring 2, 3 and 1 records. *)
Definition page1 : NaElement :=
  mk_page (Some [disk "a"; disk "b"]) (Some "next_tag_1") (Some "2").
Definition page2 : NaElement :=
  mk_page (Some [disk "c"; disk "d"; disk "e"]) (Some "next_tag_2") (Some "3").
Definition page3 : NaElement :=
  mk_page (Some [disk "f"]) None (Some "1").

(** A page that declares 5 records and carries one. *)
Definition page2_miscounted : NaElement :=
  mk_page (Some [disk "c"]) (Some "next_tag_2") (Some "5").

(** No records at all. *)
Definition no_records : NaElement := mk_page (Some []) None (Some "0").

(** Pages that break the contract in one way each. *)
Definition tag_without_list : NaElement :=
  mk_page None (Some "next_tag_1") (Some "2").
Definition tag_without_list_or_count : NaElement :=
  mk_page None (Some "next_tag_1") None.
Definition tag_without_count : NaElement :=
  mk_page (Some [disk "c"]) (Some "next_tag_2") None.
Definition count_not_a_number : NaElement :=
  mk_page (Some [disk "a"]) (Some "next_tag_1") (Some "two").
Definition list_missing_and_count_not_a_number : NaElement :=
  mk_page None (Some "next_tag_1") (Some "two").
Definition later_page_without_list : NaElement :=
  mk_page None (Some "next_tag_2") (Some "3").
Definition negative_count : NaElement :=
  mk_page (Some [disk "c"]) (Some "next_tag_2") (Some "-3").
Definition empty_tag : NaElement :=
  mk_page (Some [disk "c"]) (Some "") (Some "1").

(** A page that sends the client back to itself. *)
Definition again : NaElement :=
  mk_page (Some [disk "a"]) (Some "same_tag") (Some "1").

Definition timeout : exn := NaApiError "13001" "connection timed out".

Definition three_pages : list response :=
  [inr page1; inr page2; inr page3].

(** Four pages, the third of which does not arrive. *)
Definition third_of_four_fails : list response :=
  [inr page1; inr page2; inl timeout; inr page3].

(** The caller holds one dictionary, at address 1. *)
Definition caller_args : gmap string pyval :=
  {[ "query" := PDict [("storage-disk-info", PDict [("disk-type", PStr "SSD")])] ]}.

Definition start {FS} (s : FS) : world FS :=
  World {[ 1%positive := caller_args ]} s [].

End Sample.

(** * The other requests of the client *)

(** ** Building request elements *)

(** Modelled from the spec: the builders of [netapp_api.NaElement] (module
    [api], not part of the sources at hand), as the client calls them.
    [NaElement(name)] is an element without text or children;
    [add_new_child(name, content)] appends a child that holds [content]
    and nothing else; [create_node_with_children(node, **children)] makes
    an element with one such child for each keyword, taken here in the
    order in which the call site writes them (children are read by name);
    [add_node_with_children] appends such an element to its parent. *)
Module NaBuild.

Definition new (name : string) : NaElement := NaElem name None [].

Definition add_new_child (name : string) (content : option string)
    (e : NaElement) : NaElement :=
  Na.add_child_elem (NaElem name content []) e.

Definition create_node_with_children (node : string)
    (children : list (string * option string)) : NaElement :=
  fold_left (fun e kv => add_new_child kv.1 kv.2 e) children (new node).

Definition add_node_with_children (node : string)
    (children : list (string * option string)) (e : NaElement) : NaElement :=
  Na.add_child_elem (create_node_with_children node children) e.

End NaBuild.

(** ** The connection *)

Section Connection.

(** [self.connection.invoke_successfully(na_element, enable_tunneling)]:
    one round-trip with a request element, answered by a page or by an
    exception.  [sent] is the trace of the elements sent, latest last. *)
Context {FS : Type}.
Variable invoke : FS -> NaElement -> bool -> FS * response.

Record link := Link {
  remote : FS;
  sent : list (NaElement * bool)
}.

Definition K (A : Type) : Type := link -> outcome A * link.

Definition kret {A} (a : A) : K A := fun c => (Return a, c).

Definition kraise {A} (e : exn) : K A := fun c => (Raise e, c).

Definition kbind {A B} (m : K A) (k : A -> K B) : K B :=
  fun c =>
    match m c with
    | (Return a, c') => k a c'
    | (Raise e, c') => (Raise e, c')
    | (OutOfFuel, c') => (OutOfFuel, c')
    end.

Definition invoke_successfully (na_element : NaElement)
    (enable_tunneling : bool) : K NaElement :=
  fun c =>
    let (s', r) := invoke (remote c) na_element enable_tunneling in
    let c' := Link s' (sent c ++ [(na_element, enable_tunneling)]) in
    match r with
    | inr page => (Return page, c')
    | inl e => (Raise e, c')
    end.

End Connection.

Arguments link : clear implicits.
Arguments K : clear implicits.

(** ** [clone_lun] *)

Module Clone.

(** zAPI takes [2^24] blocks in one range and 32 ranges in one call. *)
Definition bc_limit : Z := 2 ^ 24.
Definition br_limit : Z := 32.
Definition z_limit : Z := br_limit * bc_limit.

(** [int(math.ceil(n / float(d)))].  The code computes the quotient in
    double precision; for an integer [n] of magnitude at most [2^53] and a
    power of two [d] the conversion and the division lose nothing, and the
    result is the integer given here.  The properties of [clone_lun] are
    stated under that bound on [block_count]. *)
Definition ceil_div (n d : Z) : Z := - ((- n) / d).

Definition float_exact (n : Z) : Prop := - 2 ^ 53 <= n <= 2 ^ 53.

(** The [for _segment in range(0, segments)] loop: it appends one
    [block-range] for each segment and moves [src_block] and [dest_block]
    on; it gives back the element and the two block numbers. *)
Fixpoint block_ranges_loop (segments : nat) (bc src_block dest_block : Z)
    (block_ranges : NaElement) : NaElement * (Z * Z) :=
  match segments with
  | O => (block_ranges, (src_block, dest_block))
  | S segments' =>
      let '(block_count, bc) :=
        if (bc_limit <? bc)%Z then (bc_limit, bc - bc_limit) else (bc, bc) in
      let block_range :=
        NaBuild.create_node_with_children "block-range"
          [("source-block-number", Some (PyInt.text_type src_block));
           ("destination-block-number", Some (PyInt.text_type dest_block));
           ("block-count", Some (PyInt.text_type block_count))] in
      block_ranges_loop segments' bc (src_block + block_count)
        (dest_block + block_count)
        (Na.add_child_elem block_range block_ranges)
  end.

(** The element of one call, and the block numbers after it. *)
Definition clone_create_element (volume name new_name space_reserved : string)
    (qos_policy_group_name source_snapshot : option string)
    (block_count src_block dest_block : Z) : NaElement * (Z * Z) :=
  let zapi_args :=
    [("volume", Some volume); ("source-path", Some name);
     ("destination-path", Some new_name);
     ("space-reserve", Some space_reserved)]
    ++ (if truthy source_snapshot then [("snapshot-name", source_snapshot)]
        else []) in
  let clone_create :=
    NaBuild.create_node_with_children "clone-create" zapi_args in
  let clone_create :=
    match qos_policy_group_name with
    | Some q => NaBuild.add_new_child "qos-policy-group-name" (Some q) clone_create
    | None => clone_create
    end in
  if (0 <? block_count)%Z then
    let segments := ceil_div block_count bc_limit in
    let '(block_ranges, blocks) :=
      block_ranges_loop (Z.to_nat segments) block_count src_block dest_block
        (NaBuild.new "block-ranges") in
    (Na.add_child_elem block_ranges clone_create, blocks)
  else (clone_create, (src_block, dest_block)).

Section Calls.

Context {FS : Type}.
Variable invoke : FS -> NaElement -> bool -> FS * response.

(** The [for _call in range(0, z_calls)] loop. *)
Fixpoint clone_calls (z_calls : nat)
    (volume name new_name space_reserved : string)
    (qos_policy_group_name source_snapshot : option string)
    (zbc src_block dest_block : Z) : K FS unit :=
  match z_calls with
  | O => kret tt
  | S z_calls' =>
      let '(block_count, zbc) :=
        if (z_limit <? zbc)%Z then (z_limit, zbc - z_limit) else (zbc, zbc) in
      let '(clone_create, (src_block, dest_block)) :=
        clone_create_element volume name new_name space_reserved
          qos_policy_group_name source_snapshot block_count
          src_block dest_block in
      kbind (invoke_successfully invoke clone_create true)
        (fun _ =>
           clone_calls z_calls' volume name new_name space_reserved
             qos_policy_group_name source_snapshot zbc src_block dest_block)
  end.

Definition clone_lun (volume name new_name space_reserved : string)
    (qos_policy_group_name : option string) (src_block dest_block : Z)
    (block_count : Z) (source_snapshot : option string) : K FS unit :=
  let z_calls := ceil_div block_count z_limit in
  let zbc := block_count in
  let z_calls := if (z_calls =? 0)%Z then 1 else z_calls in
  clone_calls (Z.to_nat z_calls) volume name new_name space_reserved
    qos_policy_group_name source_snapshot zbc src_block dest_block.

End Calls.

(** *** Reading a request back *)

(** The three numbers of a [block-range]. *)
Definition block_range_of (e : NaElement) : option (Z * Z * Z) :=
  match PyInt.int (Na.get_child_content e "source-block-number"),
        PyInt.int (Na.get_child_content e "destination-block-number"),
        PyInt.int (Na.get_child_content e "block-count") with
  | inr s, inr d, inr c => Some (s, d, c)
  | _, _, _ => None
  end.

(** The block ranges a [clone-create] element carries, none when it has
    no [block-ranges] child. *)
Definition block_ranges_of (clone_create : NaElement)
    : list (option (Z * Z * Z)) :=
  match Na.get_child_by_name clone_create "block-ranges" with
  | Some brs => map block_range_of (Na.get_children brs)
  | None => []
  end.

(** Ranges that follow each other from [src] and [dst] on, without gap or
    overlap. *)
Fixpoint tiles (src dst : Z) (rs : list (Z * Z * Z)) : Prop :=
  match rs with
  | [] => True
  | (s, d, c) :: rest => s = src /\ d = dst /\ tiles (src + c) (dst + c) rest
  end.

Definition blocks_of (rs : list (Z * Z * Z)) : Z :=
  fold_right (fun r acc => r.2 + acc) 0 rs.

(** What the two loops come to.  [chunks limit n x] are the counts that
    [n] turns of either loop take from [x]: [limit] while more than
    [limit] is left, and whatever is left otherwise. *)
Fixpoint chunks (limit : Z) (n : nat) (x : Z) : list Z :=
  match n with
  | O => []
  | S n' =>
      if (limit <? x)%Z then limit :: chunks limit n' (x - limit)
      else x :: chunks limit n' x
  end.

Fixpoint ranges_from (src dst : Z) (counts : list Z) : list (Z * Z * Z) :=
  match counts with
  | [] => []
  | c :: rest => (src, dst, c) :: ranges_from (src + c) (dst + c) rest
  end.

Definition total (l : list Z) : Z := fold_right Z.add 0 l.

Definition block_range_element (r : Z * Z * Z) : NaElement :=
  NaBuild.create_node_with_children "block-range"
    [("source-block-number", Some (PyInt.text_type r.1.1));
     ("destination-block-number", Some (PyInt.text_type r.1.2));
     ("block-count", Some (PyInt.text_type r.2))].

(** The requests a call has sent on a connection that had sent [before]. *)
Definition requests_since {FS} (before : link FS) (after : link FS)
    : list NaElement :=
  map fst (drop (length (sent before)) (sent after)).

(** The elements of the calls that take the counts [counts] in turn. *)
Fixpoint elements_for (volume name new_name space_reserved : string)
    (qos_policy_group_name source_snapshot : option string)
    (counts : list Z) (src_block dest_block : Z) : list NaElement :=
  match counts with
  | [] => []
  | block_count :: rest =>
      let '(clone_create, (src_block, dest_block)) :=
        clone_create_element volume name new_name space_reserved
          qos_policy_group_name source_snapshot block_count
          src_block dest_block in
      clone_create ::
        elements_for volume name new_name space_reserved
          qos_policy_group_name source_snapshot rest src_block dest_block
  end.

(** The segments of a call of [b] blocks. *)
Definition segments_of (b : Z) : list Z :=
  chunks bc_limit (Z.to_nat (ceil_div b bc_limit)) b.

(** Every call goes out with tunneling on. *)
Definition with_tunnel (e : NaElement) : NaElement * bool := (e, true).

Definition is_page (r : response) : bool :=
  match r with inr _ => true | inl _ => false end.

(** A sample page for connections that only have to say yes. *)
Definition passed : NaElement := NaElem "results" None [].

(** A connection that answers every request with the same page. *)
Definition obliging (page : NaElement) (s : unit) (_ : NaElement) (_ : bool)
    : unit * response := (s, inr page).

(** A connection that answers its scripted responses in turn. *)
Definition replaying (s : list response) (_ : NaElement) (_ : bool)
    : list response * response :=
  match s with
  | r :: rest => (rest, r)
  | [] => ([], inl StopIteration)
  end.

(** A clone of one call and a bit: [2^29 + 2^24 + 5] blocks. *)
Definition many_blocks : Z := 2 ^ 29 + 2 ^ 24 + 5.

Definition fresh_link {FS} (s : FS) : link FS := Link s [].

End Clone.

(** ** [get_lun_list] *)

Section LunList.

Context {FS : Type}.
Variable invoke : FS -> NaElement -> bool -> FS * response.

(** [self.vserver], and [NaElement._convert_entity_refs] of the module
    [api], which is not part of the sources at hand. *)
Variable vserver_name : option string.
Variable _convert_entity_refs : string -> string.

(** The request element of one turn of the loop. *)
Definition lun_get_iter (tag : option string) : NaElement :=
  let api := NaBuild.new "lun-get-iter" in
  let api := NaBuild.add_new_child "max-records" (Some "100") api in
  let api :=
    if truthy tag then
      NaBuild.add_new_child "tag" (option_map _convert_entity_refs tag) api
    else api in
  let lun_info := NaBuild.new "lun-info" in
  let lun_info := NaBuild.add_new_child "vserver" vserver_name lun_info in
  let query := NaBuild.new "query" in
  let query := Na.add_child_elem lun_info query in
  Na.add_child_elem query api.

(** What one page adds to [luns]. *)
Definition extend_luns (luns : list NaElement) (result : NaElement)
    : K FS (list NaElement) :=
  match Na.get_child_by_name result "num-records" with
  | Some _ =>
      match PyInt.int (Na.get_child_content result "num-records") with
      | inl e => kraise e
      | inr n =>
          if (1 <=? n)%Z then
            match Na.get_child_by_name result "attributes-list" with
            | Some attr_list => kret (luns ++ Na.get_children attr_list)
            | None => kraise AttributeError
            end
          else kret luns
      end
  | None => kret luns
  end.

(** The [while True] loop; [fuel] bounds its turns. *)
Fixpoint get_lun_list_loop (fuel : nat) (luns : list NaElement)
    (tag : option string) : K FS (list NaElement) :=
  match fuel with
  | O => fun c => (OutOfFuel, c)
  | S fuel' =>
      kbind (invoke_successfully invoke (lun_get_iter tag) true)
        (fun result =>
           kbind (extend_luns luns result)
             (fun luns =>
                let tag := Na.get_child_content result "next-tag" in
                match tag with
                | None => kret luns
                | Some _ => get_lun_list_loop fuel' luns tag
                end))
  end.

Definition get_lun_list (fuel : nat) : K FS (list NaElement) :=
  get_lun_list_loop fuel [] None.

End LunList.

(** The records a page adds to the list of LUNs: those it carries when it
    counts at least one, none otherwise. *)
Definition counted_items (p : NaElement) : list NaElement :=
  match declared_count p with
  | Some n => if (1 <=? n)%Z then items_of p else []
  | None => []
  end.

(** A page that [get_lun_list] can take: without a [num-records] child,
    or with an integer count and, when it counts at least one, an
    attributes list. *)
Definition listable (p : NaElement) : bool :=
  match Na.get_child_by_name p "num-records" with
  | None => true
  | Some _ =>
      match declared_count p with
      | Some n => (n <? 1)%Z || has_attributes_list p
      | None => false
      end
  end.

(** Pages that keep the loop going, and a page that ends it. *)
Definition lun_pages_ok (ps : list NaElement) (last : NaElement) : bool :=
  forallb (fun p => listable p && has_tag p) ps
  && listable last && negb (has_tag last).

(** A response that sends [get_lun_list] round again: a page it can take
    whose tag is the empty text. *)
Definition restarts (r : response) : bool :=
  match r with
  | inr p =>
      listable p &&
      match next_tag_of p with Some EmptyString => true | _ => false end
  | inl _ => false
  end.

(** ** Requests through [send_request] *)

Definition DELETED_PREFIX : string := "deleted_cinder_".

(** [_has_records]: is there a record count, not empty and not ["0"]? *)
Definition _has_records (api_result_element : NaElement) : bool :=
  match Na.get_child_content api_result_element "num-records" with
  | Some num_records =>
      negb (String.eqb num_records "") && negb (String.eqb "0" num_records)
  | None => false
  end.

(** The [spec] of a [qos_policy_group_info], a dictionary with the two
    keys the client reads. *)
Record qos_spec := QosSpec {
  policy_name : string;
  max_throughput : string
}.

(** A [qos_policy_group_info], a dictionary read through [get('legacy')]
    and [get('spec')]: [None] stands for a key that is missing or holds
    [None]. *)
Record qos_policy_group_info := QosInfo {
  legacy : option pyval;
  spec : option qos_spec
}.

Section Requests.

Context {FS : Type}.
Variable transport : FS -> string -> gmap string pyval -> bool -> FS * response.

(** [self.vserver]. *)
Variable vserver : pyval.

Notation "'do' x <- m ; k" := (bind m (fun x => k))
  (at level 10, x pattern, m at level 100, k at level 200, only parsing).

(** [try: m except netapp_api.NaApiError as ex: handler(ex)]. *)
Definition except_NaApiError {A} (m : M FS A)
    (handler : string -> string -> M FS A) : M FS A :=
  fun w =>
    match m w with
    | (Raise (NaApiError code message), w') => handler code message w'
    | r => r
    end.

Definition qos_policy_group_exists (qos_policy_group_name : string)
    : M FS bool :=
  do api_args <- alloc
    {[ "query" :=
         PDict [("qos-policy-group-info",
                 PDict [("policy-group", PStr qos_policy_group_name)])];
       "desired-attributes" :=
         PDict [("qos-policy-group-info",
                 PDict [("policy-group", PNone)])] ]};
  do result <- send_request transport "qos-policy-group-get-iter" api_args false;
  ret (_has_records result).

Definition qos_policy_group_create (qos_policy_group_name max_throughput : string)
    : M FS NaElement :=
  do api_args <- alloc
    {[ "policy-group" := PStr qos_policy_group_name;
       "max-throughput" := PStr max_throughput;
       "vserver" := vserver ]};
  send_request transport "qos-policy-group-create" api_args false.

Definition qos_policy_group_modify (qos_policy_group_name max_throughput : string)
    : M FS NaElement :=
  do api_args <- alloc
    {[ "policy-group" := PStr qos_policy_group_name;
       "max-throughput" := PStr max_throughput ]};
  send_request transport "qos-policy-group-modify" api_args false.

Definition qos_policy_group_rename (qos_policy_group_name new_name : string)
    : M FS NaElement :=
  do api_args <- alloc
    {[ "policy-group-name" := PStr qos_policy_group_name;
       "new-name" := PStr new_name ]};
  send_request transport "qos-policy-group-rename" api_args false.

Definition provision_qos_policy_group (info : option qos_policy_group_info)
    : M FS unit :=
  match info with
  | None => ret tt
  | Some info =>
      match legacy info with
      | Some _ => ret tt
      | None =>
          match spec info with
          | Some spec =>
              do found <- qos_policy_group_exists (policy_name spec);
              if negb found then
                do _ <- qos_policy_group_create (policy_name spec)
                          (max_throughput spec);
                ret tt
              else
                do _ <- qos_policy_group_modify (policy_name spec)
                          (max_throughput spec);
                ret tt
          | None => ret tt
          end
      end
  end.

Definition remove_unused_args : gmap string pyval :=
  {[ "query" :=
       PDict [("qos-policy-group-info",
               PDict [("policy-group", PStr (DELETED_PREFIX +:+ "*"));
                      ("vserver", vserver)])];
     "max-records" := PInt 3500;
     "continue-on-failure" := PStr "true";
     "return-success-list" := PStr "false";
     "return-failure-list" := PStr "false" ]}.

Definition remove_unused_qos_policy_groups : M FS unit :=
  do api_args <- alloc remove_unused_args;
  except_NaApiError
    (do _ <- send_request transport "qos-policy-group-delete-iter" api_args false;
     ret tt)
    (fun _ _ => ret tt).

Definition mark_qos_policy_group_for_deletion
    (info : option qos_policy_group_info) : M FS unit :=
  match info with
  | None => ret tt
  | Some info =>
      do _ <-
        match spec info with
        | Some spec =>
            let current_name := policy_name spec in
            let new_name := DELETED_PREFIX +:+ current_name in
            except_NaApiError
              (do _ <- qos_policy_group_rename current_name new_name; ret tt)
              (fun _ _ => ret tt)
        | None => ret tt
        end;
      remove_unused_qos_policy_groups
  end.

(** [_get_aggregates].  [aggregate_names] is a list of names or [None],
    [desired_attributes] a dictionary or [None]; an empty one counts as
    [None], as [if query:] and [if desired_attributes:] have it. *)
Definition _get_aggregates (aggregate_names : option (list string))
    (desired_attributes : option (list (string * pyval)))
    : M FS (list NaElement) :=
  let query :=
    match aggregate_names with
    | Some (n :: ns) =>
        Some (PDict [("aggr-attributes",
                      PDict [("aggregate-name",
                              PStr (String.concat "|" (n :: ns)))])])
    | _ => None
    end in
  do api_args <- alloc ∅;
  do _ <- match query with
          | Some q => setitem api_args "query" q
          | None => ret tt
          end;
  do _ <- match desired_attributes with
          | Some (kv :: kvs) =>
              setitem api_args "desired-attributes" (PDict (kv :: kvs))
          | _ => ret tt
          end;
  do result <- send_request transport "aggr-get-iter" api_args false;
  if negb (_has_records result) then ret []
  else
    match Na.get_child_by_name result "attributes-list" with
    | Some attributes_list => ret (Na.get_children attributes_list)
    | None => raise AttributeError
    end.

(** Error codes of the module [api], which is not part of the sources at
    hand. *)
Variable EAPINOTFOUND : string.
Variable EAPIPRIVILEGE : string.

Definition home_name_attributes : list (string * pyval) :=
  [("aggr-attributes",
    PDict [("aggregate-name", PNone);
           ("aggr-ownership-attributes", PDict [("home-name", PNone)])])].

Definition get_node_for_aggregate (aggregate_name : option string)
    : M FS (option string) :=
  match aggregate_name with
  | Some (String a rest) =>
      let aggregate_name := String a rest in
      do aggrs <-
        except_NaApiError
          (do aggrs <- _get_aggregates (Some [aggregate_name])
                         (Some home_name_attributes);
           ret (Some aggrs))
          (fun code message =>
             if String.eqb code EAPINOTFOUND then ret None
             else raise (NaApiError code message));
      match aggrs with
      | None => ret None
      | Some [] => ret None
      | Some (aggr :: _) =>
          let aggr_ownership_attrs :=
            default (NaElem "none" None [])
              (Na.get_child_by_name aggr "aggr-ownership-attributes") in
          ret (Na.get_child_content aggr_ownership_attrs "home-name")
      end
  | _ => ret None
  end.

(** [re.match(".*-get$|.*-get-iter$|.*-list-info$", api)]: [.] stands for
    any character but a newline, and [$] for the end of the text or the
    place before a newline that ends it. *)
Definition newline : ascii := ascii_of_nat 10.

Fixpoint has_newline (s : string) : bool :=
  match s with
  | String a r => Ascii.eqb a newline || has_newline r
  | EmptyString => false
  end.

(** The text without the newline that ends it, if one does. *)
Fixpoint chomp (s : string) : string :=
  match s with
  | String a EmptyString => if Ascii.eqb a newline then EmptyString else s
  | String a r => String a (chomp r)
  | EmptyString => EmptyString
  end.

Fixpoint ends_with (suffix s : string) : bool :=
  String.eqb s suffix ||
  match s with
  | String _ r => ends_with suffix r
  | EmptyString => false
  end.

Definition getter_name (api : string) : bool :=
  let q := chomp api in
  negb (has_newline q) &&
  (ends_with "-get" q || ends_with "-get-iter" q || ends_with "-list-info" q).

(** [_check_cluster_api_legacy].  The request goes out without
    arguments, which is an empty dictionary to the transport. *)
Definition _check_cluster_api_legacy (api : string) : M FS bool :=
  if negb (getter_name api) then raise ValueError
  else
    do api_args <- alloc ∅;
    except_NaApiError
      (do _ <- send_request transport api api_args false; ret true)
      (fun code _ =>
         if String.eqb code EAPIPRIVILEGE || String.eqb code EAPINOTFOUND
         then ret false
         else ret true).

End Requests.

(** The arguments of the renaming request of
    [mark_qos_policy_group_for_deletion]. *)
Definition rename_args (current_name : string) : gmap string pyval :=
  {[ "policy-group-name" := PStr current_name;
     "new-name" := PStr (DELETED_PREFIX +:+ current_name) ]}.

(** The arguments of the request of [get_node_for_aggregate]. *)
Definition aggregate_args (aggregate_name : string) : gmap string pyval :=
  <["desired-attributes" := PDict home_name_attributes]>
    (<["query" :=
         PDict [("aggr-attributes",
                 PDict [("aggregate-name", PStr aggregate_name)])]]> ∅).

(** What [get_node_for_aggregate] reads in a page. *)
Definition home_of (page : NaElement) : outcome (option string) :=
  if _has_records page then
    match Na.get_child_by_name page "attributes-list" with
    | None => Raise AttributeError
    | Some attributes_list =>
        match Na.get_children attributes_list with
        | [] => Return None
        | aggr :: _ =>
            Return
              (Na.get_child_content
                 (default (NaElem "none" None [])
                    (Na.get_child_by_name aggr "aggr-ownership-attributes"))
                 "home-name")
        end
    end
  else Return None.

(** ** [get_snapshot], after the request *)

(** The exceptions of [cinder.exception] that reading a snapshot raises,
    and the [IndexError] of an empty list. *)
Inductive snapshot_error :=
  | SnapshotUnavailable (data : string)
  | VolumeBackendAPIException (data : string)
  | SnapshotNotFound (snapshot_id : string)
  | IndexError.

Record snapshot := Snapshot {
  snapshot_name_of : option string;
  snapshot_volume : option string;
  snapshot_busy : bool;
  snapshot_owners : gset (option string)
}.

(** [%s] of a text or [None]. *)
Definition percent_s (x : option string) : string := default "None" x.

Section ReadSnapshot.

(** [netapp_api.ESNAPSHOTNOTALLOWED] and [strutils.bool_from_string],
    neither of which is part of the sources at hand. *)
Variable ESNAPSHOTNOTALLOWED : string.
Variable bool_from_string : option string -> bool.

(** [_handle_get_snapshot_return_failure]: [None] when it returns. *)
Definition _handle_get_snapshot_return_failure (result : NaElement)
    (snapshot_name : string) : option snapshot_error :=
  let error_record_list :=
    default (NaElem "none" None [])
      (Na.get_child_by_name result "volume-errors") in
  match Na.get_children error_record_list with
  | [] => None
  | error :: _ =>
      let error_code := Na.get_child_content error "errno" in
      let error_reason := Na.get_child_content error "reason" in
      let msg :=
        "Could not read information for snapshot " +:+ snapshot_name
        +:+ ". Code: " +:+ percent_s error_code
        +:+ ". Reason: " +:+ percent_s error_reason in
      match error_code with
      | Some code =>
          if String.eqb code ESNAPSHOTNOTALLOWED
          then Some (SnapshotUnavailable msg)
          else Some (VolumeBackendAPIException msg)
      | None => Some (VolumeBackendAPIException msg)
      end
  end.

(** [_handle_snapshot_not_found]: [None] when it returns. *)
Definition _handle_snapshot_not_found (result : NaElement)
    (snapshot_info_list : list NaElement) (snapshot_name volume_name : string)
    : option snapshot_error :=
  if negb (_has_records result) then Some (SnapshotNotFound snapshot_name)
  else if (1 <? length snapshot_info_list)%nat then
    Some (VolumeBackendAPIException
            ("Could not find unique snapshot " +:+ snapshot_name
             +:+ " on volume " +:+ volume_name +:+ "."))
  else None.

(** [get_snapshot] from the result of its request on. *)
Definition read_snapshot (result : NaElement)
    (snapshot_name volume_name : string) : snapshot_error + snapshot :=
  match _handle_get_snapshot_return_failure result snapshot_name with
  | Some e => inl e
  | None =>
      let attributes_list :=
        default (NaElem "none" None [])
          (Na.get_child_by_name result "attributes-list") in
      let snapshot_info_list := Na.get_children attributes_list in
      match _handle_snapshot_not_found result snapshot_info_list
              snapshot_name volume_name with
      | Some e => inl e
      | None =>
          match snapshot_info_list with
          | [] => inl IndexError
          | snapshot_info :: _ =>
              let snapshot_owners_list :=
                default (NaElem "none" None [])
                  (Na.get_child_by_name snapshot_info "snapshot-owners-list") in
              inr (Snapshot
                     (Na.get_child_content snapshot_info "name")
                     (Na.get_child_content snapshot_info "volume")
                     (bool_from_string
                        (Na.get_child_content snapshot_info "busy"))
                     (list_to_set
                        (map (fun snapshot_owner =>
                                Na.get_child_content snapshot_owner "owner")
                           (Na.get_children snapshot_owners_list))))
          end
      end
  end.

End ReadSnapshot.

(** The volume errors a result reports. *)
Definition volume_errors_of (result : NaElement) : list NaElement :=
  match Na.get_child_by_name result "volume-errors" with
  | Some l => Na.get_children l
  | None => []
  end.

(** ** Facts about [int] and [text_type] *)

Module PyIntFacts.
Import PyInt.

Lemma all_digits_string_of_uint d :
  all_digits (NilEmpty.string_of_uint d) = true.
Proof. induction d; simpl; auto. Qed.

Lemma string_of_uint_nonempty d :
  d <> Decimal.Nil -> NilEmpty.string_of_uint d <> EmptyString.
Proof. destruct d; simpl; congruence. Qed.

Lemma digit_not_space a : is_digit a = true -> is_space a = false.
Proof.
  unfold is_digit, is_space. intros H.
  apply andb_true_iff in H as [H1 H2].
  apply Nat.leb_le in H1. apply Nat.leb_le in H2.
  apply orb_false_iff. split.
  - apply andb_false_iff. right. apply Nat.leb_gt. lia.
  - apply Nat.eqb_neq. lia.
Qed.

Lemma rstrip_digits s : all_digits s = true -> rstrip s = s.
Proof.
  induction s as [|a r IH]; simpl; [done|].
  intros H. apply andb_true_iff in H as [Ha Hr].
  rewrite (IH Hr). destruct r; [|done].
  by rewrite (digit_not_space a Ha).
Qed.

Lemma lstrip_digits s : all_digits s = true -> lstrip s = s.
Proof.
  destruct s as [|a r]; simpl; [done|].
  intros H. apply andb_true_iff in H as [Ha _].
  by rewrite (digit_not_space a Ha).
Qed.

Lemma strip_digits s : all_digits s = true -> strip s = s.
Proof.
  intros H. unfold strip. rewrite (rstrip_digits s H). by apply lstrip_digits.
Qed.

Lemma strip_minus_digits s :
  all_digits s = true -> s <> EmptyString ->
  strip (String "-" s) = String "-" s.
Proof.
  intros H Hne. unfold strip. simpl. rewrite (rstrip_digits s H).
  destruct s; [done|]. reflexivity.
Qed.

Lemma digits_string_of_uint d :
  d <> Decimal.Nil ->
  digits (NilEmpty.string_of_uint d) = Some (Z.of_uint d).
Proof.
  intros Hd. unfold digits.
  pose proof (string_of_uint_nonempty d Hd) as Hne.
  destruct (NilEmpty.string_of_uint d) eqn:E; [done|].
  rewrite <- E, NilEmpty.usu. reflexivity.
Qed.

Lemma digit_first_not_sign a r :
  all_digits (String a r) = true ->
  a <> "+"%char /\ a <> "-"%char.
Proof.
  simpl. intros H. apply andb_true_iff in H as [Ha _].
  split; intros ->; discriminate.
Qed.

Lemma of_text_digits s :
  all_digits s = true -> of_text s = digits s.
Proof.
  intros H. unfold of_text. rewrite (strip_digits s H).
  destruct s as [|a r]; [done|].
  destruct (digit_first_not_sign a r H) as [Hp Hm].
  destruct (Ascii.ascii_dec a "+") as [->|_]; [done|].
  destruct (Ascii.ascii_dec a "-") as [->|_]; [done|].
  destruct a as [[] [] [] [] [] [] [] []]; try reflexivity; congruence.
Qed.

Lemma to_uint_pos_nonnil p : Pos.to_uint p <> Decimal.Nil.
Proof.
  intros H. pose proof (DecimalPos.Unsigned.of_to p) as E.
  rewrite H in E. discriminate.
Qed.

(** Printing an integer and reading it back gives the integer. *)
Lemma of_text_text_type z : of_text (text_type z) = Some z.
Proof.
  pose proof (DecimalZ.of_to z) as Hz.
  unfold text_type. destruct z as [|p|p]; simpl in *.
  - reflexivity.
  - rewrite of_text_digits by apply all_digits_string_of_uint.
    rewrite digits_string_of_uint by apply to_uint_pos_nonnil.
    by rewrite Hz.
  - unfold of_text.
    rewrite strip_minus_digits;
      [| apply all_digits_string_of_uint
       | apply string_of_uint_nonempty, to_uint_pos_nonnil].
    rewrite digits_string_of_uint by apply to_uint_pos_nonnil.
    simpl. f_equal. lia.
Qed.

Lemma int_text_type z : int (Some (text_type z)) = inr z.
Proof. unfold int. by rewrite of_text_text_type. Qed.

(** What [int] makes of some texts. *)
Lemma int_samples :
  int (Some "6") = inr 6 /\
  int (Some " 07 ") = inr 7 /\
  int (Some "+12") = inr 12 /\
  int (Some "-3") = inr (-3) /\
  int (Some "") = inl ValueError /\
  int (Some "two") = inl ValueError /\
  int (Some "- 3") = inl ValueError /\
  int (Some "1.5") = inl ValueError /\
  int None = inl TypeError.
Proof. repeat split; reflexivity. Qed.

End PyIntFacts.

(** ** Facts about elements *)

Module NaFacts.
Import Na.

Lemma keeps_name_set_content t : keeps_name (set_content t).
Proof. by intros [n c cs]. Qed.

Lemma keeps_name_add_child_elem r : keeps_name (add_child_elem r).
Proof. by intros [n c cs]. Qed.

Lemma find_child_alter_same n f cs :
  keeps_name f ->
  find_child n (alter_child n f cs) = option_map f (find_child n cs).
Proof.
  intros Hf. induction cs as [|c rest IH]; simpl; [done|].
  destruct (String.eqb (get_name c) n) eqn:E; simpl.
  - by rewrite Hf, E.
  - by rewrite E.
Qed.

Lemma find_child_alter_other n n' f cs :
  n <> n' -> keeps_name f ->
  find_child n' (alter_child n f cs) = find_child n' cs.
Proof.
  intros Hne Hf. induction cs as [|c rest IH]; simpl; [done|].
  destruct (String.eqb (get_name c) n) eqn:E; simpl.
  - rewrite Hf. apply String.eqb_eq in E.
    destruct (String.eqb (get_name c) n') eqn:E'; [|done].
    apply String.eqb_eq in E'. congruence.
  - by rewrite IH.
Qed.

Lemma get_child_on_child_same n f e :
  keeps_name f ->
  get_child_by_name (on_child n f e) n = option_map f (get_child_by_name e n).
Proof. destruct e. apply find_child_alter_same. Qed.

Lemma get_child_on_child_other n n' f e :
  n <> n' -> keeps_name f ->
  get_child_by_name (on_child n f e) n' = get_child_by_name e n'.
Proof. destruct e. apply find_child_alter_other. Qed.

Lemma get_child_content_on_child_other n n' f e :
  n <> n' -> keeps_name f ->
  get_child_content (on_child n f e) n' = get_child_content e n'.
Proof.
  intros. unfold get_child_content. by rewrite get_child_on_child_other.
Qed.

Lemma get_child_content_set n t e :
  get_child_content (on_child n (set_content t) e) n =
    match get_child_by_name e n with Some _ => Some t | None => None end.
Proof.
  unfold get_child_content.
  rewrite get_child_on_child_same by apply keeps_name_set_content.
  by destruct (get_child_by_name e n) as [[]|].
Qed.

End NaFacts.

(** ** Facts about pages *)

Section PageFacts.
Import Na NaFacts.

Lemma items_of_add record p :
  has_attributes_list p = true ->
  items_of (on_child "attributes-list" (add_child_elem record) p)
    = items_of p ++ [record].
Proof.
  unfold items_of, has_attributes_list.
  rewrite get_child_on_child_same by apply keeps_name_add_child_elem.
  by destruct (get_child_by_name p "attributes-list") as [[]|].
Qed.

Lemma has_attributes_list_add record p :
  has_attributes_list
    (on_child "attributes-list" (add_child_elem record) p)
    = has_attributes_list p.
Proof.
  unfold has_attributes_list.
  rewrite get_child_on_child_same by apply keeps_name_add_child_elem.
  by destruct (get_child_by_name p "attributes-list").
Qed.

Lemma has_attributes_list_save records p :
  has_attributes_list (save_records records p) = has_attributes_list p.
Proof.
  revert p. induction records as [|r rs IH]; intros p; simpl; [done|].
  by rewrite IH, has_attributes_list_add.
Qed.

Lemma items_of_save records p :
  has_attributes_list p = true ->
  items_of (save_records records p) = items_of p ++ records.
Proof.
  revert p. induction records as [|r rs IH]; intros p Hp; simpl.
  - by rewrite app_nil_r.
  - rewrite IH by (by rewrite has_attributes_list_add).
    rewrite items_of_add by done. by rewrite <- app_assoc.
Qed.

(** Saving records leaves every other child of the page as it was. *)
Lemma get_child_save n records p :
  n <> "attributes-list" ->
  get_child_by_name (save_records records p) n = get_child_by_name p n.
Proof.
  intros Hn. revert p. induction records as [|r rs IH]; intros p; simpl; [done|].
  rewrite IH. apply get_child_on_child_other; [congruence|].
  apply keeps_name_add_child_elem.
Qed.

Lemma num_records_of_save records p :
  num_records_of (save_records records p) = num_records_of p.
Proof.
  unfold num_records_of, get_child_content. by rewrite get_child_save.
Qed.

Lemma next_tag_of_save records p :
  next_tag_of (save_records records p) = next_tag_of p.
Proof.
  unfold next_tag_of, get_child_content. by rewrite get_child_save.
Qed.

End PageFacts.

(** ** Stepping through the client *)

Section ClientFacts.
Context {FS : Type}.
Variable transport : FS -> string -> gmap string pyval -> bool -> FS * response.

Notation "'do' x <- m ; k" := (bind m (fun x => k))
  (at level 10, x pattern, m at level 100, k at level 200, only parsing).

Lemma alter_lookup_insert {A} (f : A -> A) (h : gmap loc A) l x :
  h !! l = Some x -> alter f l h = <[l := f x]> h.
Proof.
  intros H. apply map_eq. intros i.
  destruct (decide (l = i)) as [->|Hne].
  - by rewrite lookup_alter_eq, lookup_insert_eq, H.
  - by rewrite lookup_alter_ne, lookup_insert_ne.
Qed.

Lemma fresh_not_in (h : gmap loc (gmap string pyval)) :
  h !! fresh (dom h) = None.
Proof. apply not_elem_of_dom, is_fresh. Qed.

(** The first lines of [send_iter_request]: pick the dictionary object
    and write the page length into it. *)
Lemma prologue_step {B} (api_args : option loc) (m : Z)
    (k : loc -> M FS B) (w : world FS) :
  (do a <- match api_args with
           | None => alloc ∅
           | Some l => do d <- load l; if decide (d = ∅) then alloc ∅ else ret l
           end;
   do _ <- setitem a "max-records" (PInt m);
   k a) w
  = k (request_ref api_args (heap w))
      (World (request_heap api_args m (heap w)) (server w) (calls w)).
Proof.
  unfold request_heap, first_args, request_ref, original_args.
  destruct api_args as [l|]; unfold bind, load, alloc, setitem, ret; simpl.
  - destruct (decide (default ∅ (heap w !! l) = ∅)) as [E|E]; simpl.
    + rewrite alter_insert_eq, E. reflexivity.
    + destruct (heap w !! l) as [d|] eqn:Hl; simpl in *; [|done].
      rewrite (alter_lookup_insert _ _ _ _ Hl). reflexivity.
  - rewrite alter_insert_eq. reflexivity.
Qed.

Lemma request_heap_lookup api_args m (h : gmap loc (gmap string pyval)) :
  request_heap api_args m h !! request_ref api_args h
    = Some (first_args api_args m h).
Proof. apply lookup_insert_eq. Qed.

(** One round-trip. *)
Lemma send_request_step {B} api l tun (k : NaElement -> M FS B) w s' r :
  transport (server w) api (default ∅ (heap w !! l)) tun = (s', r) ->
  (do x <- send_request transport api l tun; k x) w =
    let w1 := World (heap w) s'
                (calls w ++ [Call api l (default ∅ (heap w !! l)) tun r]) in
    match r with
    | inr page => k page w1
    | inl e => (Raise e, w1)
    end.
Proof.
  intros H. unfold bind, send_request. rewrite H. by destruct r.
Qed.

(** The start of one turn of the loop: copy the arguments, put the tag in. *)
Lemma copy_step {B} l tag (k : loc -> M FS B) w :
  (do a <- deepcopy l; do _ <- setitem a "tag" (PStr tag); k a) w =
    let l' := fresh (dom (heap w)) in
    k l' (World (<[l' := next_args (default ∅ (heap w !! l)) tag]> (heap w))
            (server w) (calls w)).
Proof.
  unfold bind, deepcopy, load, alloc, setitem, bind. simpl.
  by rewrite alter_insert_eq.
Qed.

(** [send_iter_request] up to the loop, case by case. *)
Lemma send_iter_request_unfold fuel api api_args tun m (w : world FS) :
  send_iter_request transport fuel api api_args tun m w =
    let l := request_ref api_args (heap w) in
    let args := first_args api_args m (heap w) in
    let sr := transport (server w) api args tun in
    let w1 := World (request_heap api_args m (heap w)) sr.1
                (calls w ++ [Call api l args tun sr.2]) in
    match sr.2 with
    | inl e => (Raise e, w1)
    | inr result =>
        if truthy (next_tag_of result) then
          match PyInt.int (num_records_of result) with
          | inl TypeError =>
              (Raise (NetAppDriverException missing_record_count), w1)
          | inl e => (Raise e, w1)
          | inr n =>
              if has_attributes_list result then
                (do pr <- remaining_pages transport fuel api l tun result n
                            (next_tag_of result);
                 finish pr) w1
              else
                (Raise (NetAppDriverException (missing_attributes_list api)), w1)
          end
        else (Return result, w1)
    end.
Proof.
  unfold send_iter_request. rewrite prologue_step.
  destruct (transport (server w) api (first_args api_args m (heap w)) tun)
    as [s' r] eqn:Ht.
  erewrite send_request_step; simpl;
    rewrite request_heap_lookup; simpl; [|exact Ht].
  destruct r as [e|result]; [done|].
  fold (next_tag_of result). destruct (truthy (next_tag_of result)); [|done].
  simpl. unfold bind at 1. unfold _get_record_count.
  fold (num_records_of result).
  destruct (PyInt.int (num_records_of result)) as [[]|n]; try done.
  unfold ret at 1. unfold has_attributes_list.
  destruct (Na.get_child_by_name result "attributes-list"); [|done].
  unfold bind at 1 3.
  destruct (remaining_pages _ _ _ _ _ _ _ _ _) as [[[r' n']| |] w2]; done.
Qed.

Lemma items_of_default p :
  Na.get_children
    (default (NaElem "none" None [])
       (Na.get_child_by_name p "attributes-list")) = items_of p.
Proof.
  unfold items_of. by destruct (Na.get_child_by_name p "attributes-list").
Qed.

Lemma remaining_pages_done fuel api l tun result num (w : world FS) :
  remaining_pages transport fuel api l tun result num None w
    = (Return (result, num), w).
Proof. by destruct fuel. Qed.

(** One turn of the loop. *)
Lemma remaining_pages_step fuel api l tun result num tag (w : world FS) :
  remaining_pages transport (S fuel) api l tun result num (Some tag) w =
    let l' := fresh (dom (heap w)) in
    let args := next_args (default ∅ (heap w !! l)) tag in
    let sr := transport (server w) api args tun in
    let w1 := World (<[l' := args]> (heap w)) sr.1
                (calls w ++ [Call api l' args tun sr.2]) in
    match sr.2 with
    | inl e => (Raise e, w1)
    | inr next_result =>
        match PyInt.int (num_records_of next_result) with
        | inl TypeError =>
            (Raise (NetAppDriverException missing_record_count), w1)
        | inl e => (Raise e, w1)
        | inr n =>
            remaining_pages transport fuel api l tun
              (save_records (items_of next_result) result) (num + n)
              (next_tag_of next_result) w1
        end
    end.
Proof.
  cbn [remaining_pages]. rewrite copy_step. cbv zeta.
  destruct (transport (server w) api
              (next_args (default ∅ (heap w !! l)) tag) tun)
    as [s' r] eqn:Ht.
  erewrite send_request_step; simpl; rewrite lookup_insert_eq; simpl;
    [|exact Ht].
  destruct r as [e|next_result]; [done|].
  unfold bind, _get_record_count. fold (num_records_of next_result).
  rewrite items_of_default.
  destruct (PyInt.int (num_records_of next_result)) as [[]|n]; done.
Qed.

(** *** What the loop does to the store and to the trace *)

(** Whatever the transport answers and however long the loop runs: the
    store only grows, every request of the loop sits in a dictionary
    object of its own that still holds what was sent, and the requests
    follow each other by the tags of the answers. *)
Lemma remaining_pages_trace fuel :
  forall api l tun result num next_tag (w : world FS) args,
    heap w !! l = Some args ->
    let w' := (remaining_pages transport fuel api l tun result num next_tag w).2 in
    exists cs,
      calls w' = calls w ++ cs /\
      heap w ⊆ heap w' /\
      match next_tag with
      | None => cs = []
      | Some tag => follows api tun args tag cs
      end /\
      Forall (fun c => heap w !! call_ref c = None /\
                       heap w' !! call_ref c = Some (call_args c)) cs /\
      NoDup (map call_ref cs).
Proof.
  induction fuel as [|fuel IH]; intros api l tun result num next_tag w args Hl.
  - exists []. destruct next_tag; simpl; rewrite app_nil_r;
      repeat split; auto; constructor.
  - destruct next_tag as [tag|].
    2:{ exists []. rewrite remaining_pages_done. simpl. rewrite app_nil_r.
        repeat split; auto; constructor. }
    rewrite remaining_pages_step. cbv zeta. rewrite Hl. simpl.
    pose proof (fresh_not_in (heap w)) as Hfresh.
    set (l' := fresh (dom (heap w))) in *.
    assert (Hsub : heap w ⊆ <[l' := next_args args tag]> (heap w))
      by (by apply insert_subseteq).
    destruct (transport (server w) api (next_args args tag) tun)
      as [s' r] eqn:Ht. simpl.
    set (c := Call api l' (next_args args tag) tun r).
    assert (Hone : forall w1 : world FS,
               calls w1 = calls w ++ [c] ->
               heap w1 = <[l' := next_args args tag]> (heap w) ->
               exists cs,
                 calls w1 = calls w ++ cs /\
                 heap w ⊆ heap w1 /\ follows api tun args tag cs /\
                 Forall (fun c => heap w !! call_ref c = None /\
                            heap w1 !! call_ref c = Some (call_args c)) cs /\
                 NoDup (map call_ref cs)).
    { intros w1 Hc Hh. exists [c]. rewrite Hh. repeat split; auto.
      - constructor; [|constructor]. split; [done|]. simpl.
        apply lookup_insert_eq.
      - simpl. constructor; [set_solver|constructor]. }
    destruct r as [e|next_result]; [by apply Hone|].
    destruct (PyInt.int (num_records_of next_result)) as [[]|n];
      try (by apply Hone).
    set (w1 := World (<[l' := next_args args tag]> (heap w)) s'
                 (calls w ++ [c])).
    assert (Hl1 : heap w1 !! l = Some args).
    { simpl. rewrite lookup_insert_ne; [done|]. intros ->. congruence. }
    destruct (IH api l tun (save_records (items_of next_result) result)
                (num + n) (next_tag_of next_result) w1 args Hl1)
      as (cs & Hcalls & Hheap & Hchain & Hrefs & Hnodup).
    exists (c :: cs). split; [|split; [|split; [|split]]].
    + rewrite Hcalls. simpl. by rewrite <- app_assoc.
    + etrans; [exact Hsub|exact Hheap].
    + simpl. repeat split; auto.
      destruct cs as [|c1 cs1]; [done|].
      destruct (next_tag_of next_result) as [t|] eqn:Etag; [|done].
      exists next_result, t. auto.
    + constructor.
      * split; [done|]. simpl.
        eapply lookup_weaken; [|exact Hheap]. apply lookup_insert_eq.
      * eapply Forall_impl; [exact Hrefs|]. intros c1 [H1 H2]. split; [|done].
        eapply lookup_weaken_None; [exact H1|exact Hsub].
    + simpl. constructor; [|done].
      intros Hin. apply list_elem_of_fmap in Hin as (c1 & Heq & Hin).
      rewrite Forall_forall in Hrefs. destruct (Hrefs c1 Hin) as [H1 _].
      rewrite <- Heq in H1. simpl in H1. by rewrite lookup_insert_eq in H1.
Qed.

Lemma finish_world pr (w : world FS) : (finish pr w).2 = w.
Proof.
  unfold finish, bind, set_child_content, ret, raise.
  destruct (Na.get_child_by_name pr.1 "num-records"); [|done].
  by destruct (Na.get_child_by_name _ "next-tag").
Qed.

Lemma bind_finish_world (mp : M FS (NaElement * Z)) (w : world FS) :
  (bind mp finish w).2 = (mp w).2.
Proof.
  unfold bind. destruct (mp w) as [[pr| |] w1]; [|done|done].
  apply finish_world.
Qed.

Lemma follows_args api tun args tag cs :
  follows api tun args tag cs ->
  Forall (fun c => exists t, call_args c = next_args args t) cs.
Proof.
  revert tag. induction cs as [|c rest IH]; intros tag H; [constructor|].
  destruct H as (_ & _ & Hargs & Hrest). constructor; [eauto|].
  destruct rest as [|c1 rest1]; [constructor|].
  destruct Hrest as (p & t & _ & _ & Hf). by apply (IH t).
Qed.

(** The whole call, seen from the store and the trace. *)
Lemma send_iter_request_trace fuel api api_args tun m (w : world FS) :
  let w' := (send_iter_request transport fuel api api_args tun m w).2 in
  let args := first_args api_args m (heap w) in
  let h1 := request_heap api_args m (heap w) in
  exists r0 cs,
    calls w' = calls w ++
               Call api (request_ref api_args (heap w)) args tun r0 :: cs /\
    h1 ⊆ heap w' /\
    match cs with
    | [] => True
    | _ => exists p t, r0 = inr p /\ next_tag_of p = Some t /\
                       follows api tun args t cs
    end /\
    Forall (fun c => h1 !! call_ref c = None /\
                     heap w' !! call_ref c = Some (call_args c)) cs /\
    NoDup (map call_ref cs).
Proof.
  rewrite send_iter_request_unfold. cbv zeta.
  destruct (transport (server w) api (first_args api_args m (heap w)) tun)
    as [s' r0] eqn:Ht. simpl.
  exists r0.
  assert (Hstop : forall o : outcome NaElement,
    let w1 := World (request_heap api_args m (heap w)) s'
                (calls w ++ [Call api (request_ref api_args (heap w))
                               (first_args api_args m (heap w)) tun r0]) in
    exists cs,
      calls (o, w1).2 = calls w ++
        Call api (request_ref api_args (heap w))
          (first_args api_args m (heap w)) tun r0 :: cs /\
      request_heap api_args m (heap w) ⊆ heap (o, w1).2 /\
      match cs with
      | [] => True
      | _ => exists p t, r0 = inr p /\ next_tag_of p = Some t /\
               follows api tun (first_args api_args m (heap w)) t cs
      end /\
      Forall (fun c => request_heap api_args m (heap w) !! call_ref c = None /\
                heap (o, w1).2 !! call_ref c = Some (call_args c)) cs /\
      NoDup (map call_ref cs)).
  { intros o. exists []. simpl. repeat split; auto; constructor. }
  destruct r0 as [e|result]; [apply Hstop|].
  destruct (truthy (next_tag_of result)) eqn:Etag; [|apply Hstop].
  destruct (PyInt.int (num_records_of result)) as [[]|n]; try apply Hstop.
  destruct (has_attributes_list result); [|apply Hstop].
  rewrite bind_finish_world.
  set (w1 := World (request_heap api_args m (heap w)) s' _).
  destruct (remaining_pages_trace fuel api (request_ref api_args (heap w))
              tun result n (next_tag_of result) w1
              (first_args api_args m (heap w))
              (request_heap_lookup api_args m (heap w)))
    as (cs & Hcalls & Hheap & Hchain & Hrefs & Hnodup).
  exists cs. split; [|split; [done|split; [|done]]].
  - rewrite Hcalls. simpl. by rewrite <- app_assoc.
  - destruct cs as [|c1 cs1]; [done|].
    destruct (next_tag_of result) as [t|] eqn:Et; [|done].
    exists result, t. auto.
Qed.

(** *** Running out of fuel *)

Lemma bind_finish_outcome (mp : M FS (NaElement * Z)) (w : world FS) :
  (bind mp finish w).1 = OutOfFuel -> (mp w).1 = OutOfFuel.
Proof.
  unfold bind. destruct (mp w) as [[pr| |] w1]; try done.
  unfold finish, bind, set_child_content, ret, raise.
  destruct (Na.get_child_by_name pr.1 "num-records"); [|done].
  by destruct (Na.get_child_by_name _ "next-tag").
Qed.

(** The loop uses up its fuel only by fetching that many pages which all
    carry a tag. *)
Lemma remaining_pages_out_of_fuel fuel :
  forall api l tun result num next_tag (w : world FS),
    let r := remaining_pages transport fuel api l tun result num next_tag w in
    r.1 = OutOfFuel ->
    exists cs,
      calls r.2 = calls w ++ cs /\ length cs = fuel /\
      Forall (fun c => carries_tag (call_response c) = true) cs.
Proof.
  induction fuel as [|fuel IH]; intros api l tun result num next_tag w.
  - destruct next_tag; simpl; [|done]. intros _. exists [].
    by rewrite app_nil_r.
  - destruct next_tag as [tag|]; [|by rewrite remaining_pages_done].
    rewrite remaining_pages_step. cbv zeta.
    destruct (transport (server w) api _ tun) as [s' r0]. simpl.
    destruct r0 as [e|p]; [done|].
    destruct (PyInt.int (num_records_of p)) as [[]|n]; try done.
    set (w1 := World _ _ _). intros Hout.
    pose proof Hout as Htag.
    destruct (next_tag_of p) as [t|] eqn:Et;
      [|by rewrite remaining_pages_done in Htag].
    destruct (IH api l tun _ _ _ w1 Hout) as (cs & Hcalls & Hlen & Hall).
    eexists (_ :: cs). split; [|split].
    + rewrite Hcalls. subst w1. simpl. by rewrite <- app_assoc.
    + simpl. by rewrite Hlen.
    + constructor; [|done]. simpl. unfold has_tag. by rewrite Et.
Qed.

Lemma send_iter_request_out_of_fuel fuel api api_args tun m (w : world FS) :
  let r := send_iter_request transport fuel api api_args tun m w in
  r.1 = OutOfFuel ->
  exists cs,
    calls r.2 = calls w ++ cs /\ length cs = S fuel /\
    Forall (fun c => carries_tag (call_response c) = true) cs.
Proof.
  rewrite send_iter_request_unfold. cbv zeta.
  destruct (transport (server w) api _ tun) as [s' r0]. simpl.
  destruct r0 as [e|p]; [done|].
  destruct (truthy (next_tag_of p)) eqn:Etag; [|done].
  destruct (PyInt.int (num_records_of p)) as [[]|n]; try done.
  destruct (has_attributes_list p); [|done].
  set (w1 := World _ _ _). intros Hout.
  rewrite bind_finish_world. apply bind_finish_outcome in Hout.
  destruct (remaining_pages_out_of_fuel fuel _ _ _ _ _ _ w1 Hout)
    as (cs & Hcalls & Hlen & Hall).
  eexists (_ :: cs). split; [|split].
  - rewrite Hcalls. subst w1. simpl. by rewrite <- app_assoc.
  - simpl. by rewrite Hlen.
  - constructor; [|done]. simpl. unfold has_tag.
    by destruct (next_tag_of p).
Qed.

(** Against a transport that answers a continuing page every time the
    loop never ends by itself: it makes as many round-trips as it is
    given fuel for. *)
Lemma remaining_pages_forever :
  (forall s api args tun, goes_on (transport s api args tun).2 = true) ->
  forall fuel api l tun result num tag (w : world FS),
    let r := remaining_pages transport fuel api l tun result num (Some tag) w in
    r.1 = OutOfFuel /\ length (calls r.2) = (length (calls w) + fuel)%nat.
Proof.
  intros Hgo. induction fuel as [|fuel IH]; intros api l tun result num tag w.
  - simpl. split; [done|lia].
  - rewrite remaining_pages_step. cbv zeta.
    specialize (Hgo (server w) api
                  (next_args (default ∅ (heap w !! l)) tag) tun).
    destruct (transport (server w) api _ tun) as [s' r0]. simpl in *.
    destruct r0 as [e|p]; [done|].
    apply andb_true_iff in Hgo as [Hcount Htag].
    unfold countable in Hcount. unfold has_tag in Htag.
    destruct (declared_count p) as [n|] eqn:En; [|done].
    destruct (next_tag_of p) as [t|] eqn:Et; [|done].
    unfold declared_count in En. unfold PyInt.int.
    destruct (num_records_of p) as [txt|]; [|done]. rewrite En.
    set (w1 := World _ _ _).
    destruct (IH api l tun (save_records (items_of p) result) (num + n) t w1)
      as [Hout Hlen].
    split; [done|]. rewrite Hlen. subst w1. simpl.
    rewrite length_app. simpl. lia.
Qed.

Lemma bind_finish_out_of_fuel (mp : M FS (NaElement * Z)) (w : world FS) :
  (mp w).1 = OutOfFuel -> (bind mp finish w).1 = OutOfFuel.
Proof. unfold bind. by destruct (mp w) as [[pr| |] w1]. Qed.

Lemma send_iter_request_forever :
  (forall s api args tun, goes_on (transport s api args tun).2 = true) ->
  forall fuel api api_args tun m (w : world FS),
    starts (transport (server w) api (first_args api_args m (heap w)) tun).2
      = true ->
    let r := send_iter_request transport fuel api api_args tun m w in
    r.1 = OutOfFuel /\ length (calls r.2) = (length (calls w) + S fuel)%nat.
Proof.
  intros Hgo fuel api api_args tun m w Hstart.
  rewrite send_iter_request_unfold. cbv zeta.
  destruct (transport (server w) api _ tun) as [s' r0]. simpl in *.
  destruct r0 as [e|p]; [done|].
  unfold opening in Hstart.
  apply andb_true_iff in Hstart as [Hp Hlist].
  apply andb_true_iff in Hp as [Htag Hcount].
  unfold countable in Hcount.
  destruct (declared_count p) as [n|] eqn:En; [|done].
  unfold declared_count in En. unfold PyInt.int.
  destruct (num_records_of p) as [txt|]; [|done].
  rewrite Htag, En, Hlist.
  destruct (next_tag_of p) as [t|]; [|done].
  set (w1 := World _ _ _).
  destruct (remaining_pages_forever Hgo fuel api
              (request_ref api_args (heap w)) tun p n t w1) as [Hout Hlen].
  split.
  - by apply bind_finish_out_of_fuel.
  - rewrite bind_finish_world, Hlen. subst w1. simpl.
    rewrite length_app. simpl. lia.
Qed.

(** *** More fuel changes nothing once the call has ended *)

Lemma remaining_pages_more_fuel fuel :
  forall k api l tun result num next_tag (w : world FS),
    (remaining_pages transport fuel api l tun result num next_tag w).1
      <> OutOfFuel ->
    remaining_pages transport (fuel + k) api l tun result num next_tag w
      = remaining_pages transport fuel api l tun result num next_tag w.
Proof.
  induction fuel as [|fuel IH]; intros k api l tun result num next_tag w.
  - destruct next_tag; simpl; [done|]. intros _.
    by rewrite remaining_pages_done.
  - destruct next_tag as [tag|]; [|by rewrite !remaining_pages_done].
    cbn [Nat.add]. rewrite !remaining_pages_step. cbv zeta.
    destruct (transport (server w) api _ tun) as [s' r0]. simpl.
    destruct r0 as [e|p]; [done|].
    destruct (PyInt.int (num_records_of p)) as [[]|n]; try done.
    apply IH.
Qed.

Lemma send_iter_request_more_fuel fuel k api api_args tun m (w : world FS) :
  (send_iter_request transport fuel api api_args tun m w).1 <> OutOfFuel ->
  send_iter_request transport (fuel + k) api api_args tun m w
    = send_iter_request transport fuel api api_args tun m w.
Proof.
  rewrite !send_iter_request_unfold. cbv zeta.
  destruct (transport (server w) api _ tun) as [s' r0]. simpl.
  destruct r0 as [e|p]; [done|].
  destruct (truthy (next_tag_of p)); [|done].
  destruct (PyInt.int (num_records_of p)) as [[]|n]; try done.
  destruct (has_attributes_list p); [|done].
  intros Hout. unfold bind at 1 2. rewrite remaining_pages_more_fuel; [done|].
  intros Hrun. apply Hout. by apply bind_finish_out_of_fuel.
Qed.

End ClientFacts.

(** ** Runs against a scripted transport *)

Section Scripted.

Abbreviation run := (remaining_pages scripted).

Lemma int_declared p n :
  declared_count p = Some n -> PyInt.int (num_records_of p) = inr n.
Proof.
  unfold declared_count, PyInt.int.
  destruct (num_records_of p); [|done]. by intros ->.
Qed.

Lemma countable_declared p :
  countable p = true -> exists n, declared_count p = Some n.
Proof. unfold countable. destruct (declared_count p); [eauto|done]. Qed.

Lemma has_tag_some p : has_tag p = true -> exists t, next_tag_of p = Some t.
Proof. unfold has_tag. destruct (next_tag_of p); [eauto|done]. Qed.

Lemma has_tag_none p : has_tag p = false -> next_tag_of p = None.
Proof. unfold has_tag. by destruct (next_tag_of p). Qed.

Lemma save_all_app ps qs result :
  save_all (ps ++ qs) result = save_all qs (save_all ps result).
Proof. apply fold_left_app. Qed.

Lemma total_declared_app ps qs :
  total_declared (ps ++ qs) = total_declared ps + total_declared qs.
Proof.
  induction ps as [|p ps IH]; simpl; [done|]. rewrite IH. lia.
Qed.

Lemma has_attributes_list_save_all ps result :
  has_attributes_list (save_all ps result) = has_attributes_list result.
Proof.
  revert result. induction ps as [|p ps IH]; intros result; simpl; [done|].
  by rewrite IH, has_attributes_list_save.
Qed.

Lemma items_of_save_all ps result :
  has_attributes_list result = true ->
  items_of (save_all ps result)
    = items_of result ++ concat (map items_of ps).
Proof.
  revert result. induction ps as [|p ps IH]; intros result Hr; simpl.
  - by rewrite app_nil_r.
  - rewrite IH by (by rewrite has_attributes_list_save).
    rewrite items_of_save by done. by rewrite <- app_assoc.
Qed.

Lemma get_child_save_all n ps result :
  n <> "attributes-list" ->
  Na.get_child_by_name (save_all ps result) n = Na.get_child_by_name result n.
Proof.
  intros Hn. revert result.
  induction ps as [|p ps IH]; intros result; simpl; [done|].
  by rewrite IH, get_child_save.
Qed.

(** The loop consumes a run of continuing pages, one turn each. *)
Lemma run_continuing mid :
  forallb continuing mid = true ->
  forall fuel api l tun result num tag (w : world (list response)) rest,
    server w = map inr mid ++ rest ->
    exists tag' w',
      run (length mid + fuel) api l tun result num (Some tag) w
        = run fuel api l tun (save_all mid result)
            (num + total_declared mid) (Some tag') w' /\
      server w' = rest /\
      length (calls w') = (length (calls w) + length mid)%nat.
Proof.
  induction mid as [|p mid IH]; intros Hmid fuel api l tun result num tag w rest Hs.
  - exists tag, w. simpl. rewrite Z.add_0_r, Nat.add_0_r. auto.
  - simpl in Hmid. apply andb_true_iff in Hmid as [Hp Hmid].
    apply andb_true_iff in Hp as [Hcount Htag].
    destruct (countable_declared p Hcount) as [n Hn].
    destruct (has_tag_some p Htag) as [t Ht].
    cbn [length Nat.add]. rewrite remaining_pages_step. cbv zeta.
    rewrite Hs. simpl. rewrite (int_declared p n Hn), Ht.
    set (w1 := World _ _ _).
    destruct (IH Hmid fuel api l tun (save_records (items_of p) result)
                (num + n) t w1 rest eq_refl)
      as (tag' & w' & Hrun & Hsrv & Hlen).
    exists tag', w'. rewrite Hrun, Hn. simpl. repeat split.
    + f_equal. lia.
    + done.
    + rewrite Hlen. subst w1. simpl. rewrite length_app. simpl. lia.
Qed.

Lemma tail_ok_split ps :
  tail_ok ps = true ->
  exists mid pl,
    ps = mid ++ [pl] /\ forallb continuing mid = true /\ closing pl = true.
Proof.
  induction ps as [|p ps IH]; simpl; [done|].
  destruct ps as [|q ps].
  - intros Hp. by exists [], p.
  - intros H. apply andb_true_iff in H as [Hp Hrest].
    destruct (IH Hrest) as (mid & pl & Heq & Hmid & Hpl).
    exists (p :: mid), pl. rewrite Heq. simpl. by rewrite Hp, Hmid.
Qed.

(** The loop over a good tail returns the first page with every record
    saved into it, and the counts summed. *)
Lemma run_tail ps :
  tail_ok ps = true ->
  forall fuel api l tun result num tag (w : world (list response)) rest,
    (length ps <= fuel)%nat ->
    server w = map inr ps ++ rest ->
    exists w',
      run fuel api l tun result num (Some tag) w
        = (Return (save_all ps result, num + total_declared ps), w') /\
      server w' = rest /\
      length (calls w') = (length (calls w) + length ps)%nat.
Proof.
  intros Hps fuel api l tun result num tag w rest Hfuel Hs.
  destruct (tail_ok_split ps Hps) as (mid & pl & -> & Hmid & Hpl).
  rewrite length_app in Hfuel. simpl in Hfuel.
  rewrite map_app, <- app_assoc in Hs. simpl in Hs.
  destruct (run_continuing mid Hmid (fuel - length mid) api l tun result num
              tag w _ Hs) as (tag' & w1 & Hrun & Hsrv & Hlen).
  replace (length mid + (fuel - length mid))%nat with fuel in Hrun by lia.
  rewrite Hrun.
  destruct (fuel - length mid)%nat as [|fuel'] eqn:Ef; [lia|].
  apply andb_true_iff in Hpl as [Hcount Hlast].
  destruct (countable_declared pl Hcount) as [n Hn].
  apply negb_true_iff, has_tag_none in Hlast.
  rewrite remaining_pages_step. cbv zeta. rewrite Hsrv. simpl.
  rewrite (int_declared pl n Hn), Hlast, remaining_pages_done.
  match goal with |- exists w', (_, ?W) = _ /\ _ => exists W end.
  split; [|split; [reflexivity|]].
  - rewrite save_all_app, total_declared_app. simpl. rewrite Hn. simpl.
    do 3 f_equal. lia.
  - simpl. rewrite !length_app, Hlen. simpl. lia.
Qed.

(** *** The result of a multi-page call *)

Lemma truthy_has_child p :
  truthy (next_tag_of p) = true ->
  exists c, Na.get_child_by_name p "next-tag" = Some c.
Proof.
  unfold next_tag_of, Na.get_child_content.
  destruct (Na.get_child_by_name p "next-tag"); [eauto|done].
Qed.

Lemma countable_has_child p :
  countable p = true ->
  exists c, Na.get_child_by_name p "num-records" = Some c.
Proof.
  unfold countable, declared_count, num_records_of, Na.get_child_content.
  destruct (Na.get_child_by_name p "num-records"); [eauto|done].
Qed.

Lemma finish_merged {FS} p0 ps (w : world FS) :
  opening p0 = true ->
  finish (save_all ps p0, total_declared (p0 :: ps)) w
    = (Return (merged p0 ps), w).
Proof.
  intros Hp0. unfold opening in Hp0.
  apply andb_true_iff in Hp0 as [Hp0 _].
  apply andb_true_iff in Hp0 as [Htag Hcount].
  destruct (truthy_has_child p0 Htag) as [ct Hct].
  destruct (countable_has_child p0 Hcount) as [cn Hcn].
  unfold finish, bind, set_child_content. cbn [fst snd].
  rewrite get_child_save_all, Hcn by done. unfold ret at 1.
  rewrite NaFacts.get_child_on_child_other;
    [|done|apply NaFacts.keeps_name_set_content].
  by rewrite get_child_save_all, Hct by done.
Qed.

Lemma items_of_merged p0 ps :
  opening p0 = true ->
  items_of (merged p0 ps) = concat (map items_of (p0 :: ps)).
Proof.
  intros Hp0. unfold opening in Hp0.
  apply andb_true_iff in Hp0 as [_ Hlist].
  unfold merged, items_of at 1.
  rewrite !NaFacts.get_child_on_child_other;
    try done; try apply NaFacts.keeps_name_set_content.
  fold (items_of (save_all ps p0)). by rewrite items_of_save_all.
Qed.

Lemma num_records_of_merged p0 ps :
  opening p0 = true ->
  num_records_of (merged p0 ps)
    = Some (PyInt.text_type (total_declared (p0 :: ps))).
Proof.
  intros Hp0. unfold opening in Hp0.
  apply andb_true_iff in Hp0 as [Hp0 _].
  apply andb_true_iff in Hp0 as [_ Hcount].
  destruct (countable_has_child p0 Hcount) as [cn Hcn].
  unfold merged, num_records_of.
  rewrite NaFacts.get_child_content_on_child_other;
    [|done|apply NaFacts.keeps_name_set_content].
  by rewrite NaFacts.get_child_content_set, get_child_save_all, Hcn.
Qed.

Lemma next_tag_of_merged p0 ps :
  opening p0 = true -> next_tag_of (merged p0 ps) = Some "".
Proof.
  intros Hp0. unfold opening in Hp0.
  apply andb_true_iff in Hp0 as [Hp0 _].
  apply andb_true_iff in Hp0 as [Htag _].
  destruct (truthy_has_child p0 Htag) as [ct Hct].
  unfold merged, next_tag_of. rewrite NaFacts.get_child_content_set.
  rewrite NaFacts.get_child_on_child_other;
    [|done|apply NaFacts.keeps_name_set_content].
  by rewrite get_child_save_all, Hct.
Qed.

(** A whole listing against the scripted transport. *)
Lemma listing_run p0 ps :
  listing_ok p0 ps = true ->
  forall fuel api api_args tun m (w : world (list response)) rest,
    (length ps <= fuel)%nat ->
    server w = map inr (p0 :: ps) ++ rest ->
    exists w',
      send_iter_request scripted fuel api api_args tun m w
        = (Return (match ps with [] => p0 | _ => merged p0 ps end), w') /\
      server w' = rest /\
      length (calls w') = (length (calls w) + S (length ps))%nat.
Proof.
  intros Hok fuel api api_args tun m w rest Hfuel Hs.
  rewrite send_iter_request_unfold. cbv zeta. rewrite Hs. simpl.
  destruct ps as [|p1 ps].
  - simpl in Hok. apply negb_true_iff in Hok. rewrite Hok.
    eexists. split; [reflexivity|]. simpl. split; [done|].
    rewrite length_app. simpl. lia.
  - unfold listing_ok in Hok. apply andb_true_iff in Hok as [Hp0 Htail].
    pose proof Hp0 as Hopen. unfold opening in Hp0.
    apply andb_true_iff in Hp0 as [Hp0 Hlist].
    apply andb_true_iff in Hp0 as [Htag Hcount].
    destruct (countable_declared p0 Hcount) as [n Hn].
    rewrite Htag, (int_declared p0 n Hn), Hlist.
    destruct (next_tag_of p0) as [t|] eqn:Et; [|done].
    set (w1 := World _ _ _).
    destruct (run_tail (p1 :: ps) Htail fuel api
                (request_ref api_args (heap w)) tun p0 n t w1 rest Hfuel
                eq_refl) as (w' & Hrun & Hsrv & Hlen).
    exists w'. unfold bind at 1. rewrite Hrun.
    replace (n + total_declared (p1 :: ps))
      with (total_declared (p0 :: p1 :: ps))
      by (cbn [total_declared fold_right]; by rewrite Hn).
    rewrite finish_merged by done. split; [done|]. split; [done|].
    rewrite Hlen. subst w1. simpl. rewrite length_app. simpl. lia.
Qed.

(** After at least one leading page the call stands in the loop, about to
    fetch whatever the script holds next. *)
Lemma leading_run p0 mid :
  leading (p0 :: mid) = true ->
  forall fuel api api_args tun m (w : world (list response)) rest,
    (S (length mid) <= fuel)%nat ->
    server w = map inr (p0 :: mid) ++ rest ->
    exists tag fuel' w1,
      send_iter_request scripted fuel api api_args tun m w
        = bind (run (S fuel') api (request_ref api_args (heap w)) tun
                  (save_all mid p0) (total_declared (p0 :: mid)) (Some tag))
            finish w1 /\
      server w1 = rest /\
      length (calls w1) = (length (calls w) + S (length mid))%nat.
Proof.
  intros Hlead fuel api api_args tun m w rest Hfuel Hs.
  simpl in Hlead. apply andb_true_iff in Hlead as [Hp0 Hmid].
  unfold opening in Hp0.
  apply andb_true_iff in Hp0 as [Hp0 Hlist].
  apply andb_true_iff in Hp0 as [Htag Hcount].
  destruct (countable_declared p0 Hcount) as [n Hn].
  rewrite send_iter_request_unfold. cbv zeta. rewrite Hs. simpl.
  rewrite Htag, (int_declared p0 n Hn), Hlist.
  destruct (next_tag_of p0) as [t|] eqn:Et; [|done].
  set (w0 := World _ _ _).
  destruct (run_continuing mid Hmid (fuel - length mid) api
              (request_ref api_args (heap w)) tun p0 n t w0 rest eq_refl)
    as (tag' & w1 & Hrun & Hsrv & Hlen).
  replace (length mid + (fuel - length mid))%nat with fuel in Hrun by lia.
  destruct (fuel - length mid)%nat as [|fuel'] eqn:Ef; [lia|].
  exists tag', fuel', w1. split; [|split; [done|]].
  - unfold bind. rewrite Hrun, Hn. reflexivity.
  - rewrite Hlen. subst w0. simpl. rewrite length_app. simpl. lia.
Qed.

(** What the call does with the response that follows the leading pages,
    when that response is not a page the loop can go on with. *)
Lemma run_after_leading pre (r : response) :
  leading pre = true ->
  forall fuel api api_args tun m (w : world (list response)) rest,
    (length pre <= fuel)%nat ->
    server w = map inr pre ++ r :: rest ->
    forall e,
      match r with
      | inl e' => e = e'
      | inr bad =>
          (pre = [] -> truthy (next_tag_of bad) = true) /\
          match PyInt.int (num_records_of bad) with
          | inl TypeError => e = NetAppDriverException missing_record_count
          | inl e' => e = e'
          | inr _ => False
          end
      end ->
      exists w',
        send_iter_request scripted fuel api api_args tun m w = (Raise e, w') /\
        server w' = rest /\
        length (calls w') = (length (calls w) + S (length pre))%nat.
Proof.
  intros Hlead fuel api api_args tun m w rest Hfuel Hs e Hr.
  destruct pre as [|p0 mid].
  - rewrite send_iter_request_unfold. cbv zeta. simpl in Hs. rewrite Hs. simpl.
    destruct r as [e'|bad].
    + subst e'. eexists. split; [reflexivity|]. simpl. split; [done|].
      rewrite length_app. simpl. lia.
    + destruct Hr as [Htag Hr]. rewrite (Htag eq_refl).
      destruct (PyInt.int (num_records_of bad)) as [e'|n]; [|done].
      assert (Hlen : forall w1 : world (list response),
                calls w1 = calls w ++ [Call api (request_ref api_args (heap w))
                     (first_args api_args m (heap w)) tun (inr bad)] ->
                length (calls w1) = (length (calls w) + 1)%nat)
        by (intros w1 ->; rewrite length_app; simpl; lia).
      destruct e'; subst e; eexists; (split; [reflexivity|]);
        (split; [done|by apply Hlen]).
  - destruct (leading_run p0 mid Hlead fuel api api_args tun m w _ Hfuel Hs)
      as (tag & fuel' & w1 & Hrun & Hsrv & Hlen).
    rewrite Hrun. unfold bind. rewrite remaining_pages_step. cbv zeta.
    rewrite Hsrv. simpl.
    assert (Hlen' : forall c : call,
              length (calls w1 ++ [c])
                = (length (calls w) + S (length (p0 :: mid)))%nat)
      by (intros c; rewrite length_app, Hlen; simpl; lia).
    destruct r as [e'|bad].
    + subst e'. eexists. split; [reflexivity|]. simpl. split; [done|].
      apply Hlen'.
    + destruct Hr as [_ Hr].
      destruct (PyInt.int (num_records_of bad)) as [e'|n]; [|done].
      destruct e'; subst e; eexists; (split; [reflexivity|]);
        (split; [done|]); apply Hlen'.
Qed.

End Scripted.

(** * Properties of [send_iter_request] *)

(** ** The single-page case *)

(** C6: when the first page carries no continuation tag ([None] or the
    empty text), [send_iter_request] returns that very page, unchanged, as
    the whole answer: one request is sent, and the store holds nothing but
    the argument dictionary of that request, so that no copy of the
    arguments and no buffer was made. *)
Theorem fast_path {FS} (transport : FS -> string -> gmap string pyval -> bool -> FS * response)
    fuel api api_args tun m (w : world FS) s' page :
  transport (server w) api (first_args api_args m (heap w)) tun = (s', inr page) ->
  truthy (next_tag_of page) = false ->
  send_iter_request transport fuel api api_args tun m w =
    (Return page,
     World (request_heap api_args m (heap w)) s'
       (calls w ++ [Call api (request_ref api_args (heap w))
                      (first_args api_args m (heap w)) tun (inr page)])).
Proof.
  intros Ht Htag. rewrite send_iter_request_unfold. cbv zeta.
  rewrite Ht. simpl. by rewrite Htag.
Qed.

(** A page of zero records without a tag is an answer, not an error. *)
Lemma fast_path_no_records :
  (send_iter_request scripted 0 "storage-disk-get-iter" None true
     DEFAULT_MAX_PAGE_LENGTH (World ∅ [inr Sample.no_records] [])
   = (Return Sample.no_records,
      World (request_heap None DEFAULT_MAX_PAGE_LENGTH ∅) []
        ([] ++ [Call "storage-disk-get-iter" (request_ref None ∅)
                  (first_args None DEFAULT_MAX_PAGE_LENGTH ∅) true
                  (inr Sample.no_records)])))
  /\ declared_count Sample.no_records = Some 0
  /\ items_of Sample.no_records = [].
Proof.
  split; [|split; reflexivity].
  apply (fast_path scripted 0 "storage-disk-get-iter" None true
           DEFAULT_MAX_PAGE_LENGTH (World ∅ [inr Sample.no_records] []));
    reflexivity.
Defined.

(** ** A first page that promises more and has no list *)

(** C4, as the code has it: when the first page carries a tag and no
    attributes list the call fails at once, having sent one request and no
    more, whatever the page says of its record count.  The record count is
    read before the list is looked for: the error is the
    [NetAppDriverException] for the missing count when the page has none,
    and the [NetAppDriverException] for the missing list when the count is
    a decimal integer (a sign or none, digits, blanks around).  For any
    other text nothing is said of the error here but that it is raised
    after the one request. *)
Theorem missing_list_fails_at_once {FS}
    (transport : FS -> string -> gmap string pyval -> bool -> FS * response)
    fuel api api_args tun m (w : world FS) s' page :
  transport (server w) api (first_args api_args m (heap w)) tun = (s', inr page) ->
  truthy (next_tag_of page) = true ->
  has_attributes_list page = false ->
  exists e,
    send_iter_request transport fuel api api_args tun m w =
      (Raise e,
       World (request_heap api_args m (heap w)) s'
         (calls w ++ [Call api (request_ref api_args (heap w))
                        (first_args api_args m (heap w)) tun (inr page)])) /\
    (num_records_of page = None ->
     e = NetAppDriverException missing_record_count) /\
    (forall n, declared_count page = Some n ->
     e = NetAppDriverException (missing_attributes_list api)).
Proof.
  intros Ht Htag Hlist. rewrite send_iter_request_unfold. cbv zeta.
  rewrite Ht. simpl. rewrite Htag, Hlist.
  unfold declared_count, PyInt.int.
  destruct (num_records_of page) as [txt|]; simpl.
  - destruct (PyInt.of_text txt) as [n|]; simpl;
      eexists; (split; [reflexivity|]); split; intros; congruence.
  - eexists; split; [reflexivity|]. split; intros; congruence.
Qed.

Lemma missing_list_fails_at_once_sample :
  declared_count Sample.tag_without_list = Some 2 /\
  exists e,
    send_iter_request scripted 3 "storage-disk-get-iter" None true
      DEFAULT_MAX_PAGE_LENGTH
      (World ∅ [inr Sample.tag_without_list; inr Sample.page3] [])
    = (Raise e,
       World (request_heap None DEFAULT_MAX_PAGE_LENGTH ∅) [inr Sample.page3]
         ([] ++ [Call "storage-disk-get-iter" (request_ref None ∅)
                   (first_args None DEFAULT_MAX_PAGE_LENGTH ∅) true
                   (inr Sample.tag_without_list)])) /\
    (num_records_of Sample.tag_without_list = None ->
     e = NetAppDriverException missing_record_count) /\
    (forall n, declared_count Sample.tag_without_list = Some n ->
     e = NetAppDriverException
           (missing_attributes_list "storage-disk-get-iter")).
Proof.
  split; [reflexivity|].
  apply (missing_list_fails_at_once scripted 3 "storage-disk-get-iter" None
           true DEFAULT_MAX_PAGE_LENGTH
           (World ∅ [inr Sample.tag_without_list; inr Sample.page3] []));
    reflexivity.
Defined.

(** A first page with a tag, no list, and a count that is not a number:
    what comes out is a [ValueError], not a [NetAppDriverException]. *)
Lemma missing_list_with_bad_count_is_value_error :
  let r :=
    send_iter_request scripted 3 "storage-disk-get-iter" None true
      DEFAULT_MAX_PAGE_LENGTH
      (World ∅ [inr Sample.list_missing_and_count_not_a_number] []) in
  has_attributes_list Sample.list_missing_and_count_not_a_number = false /\
  truthy (next_tag_of Sample.list_missing_and_count_not_a_number) = true /\
  r.1 = Raise ValueError /\
  (forall msg, r.1 <> Raise (NetAppDriverException msg)).
Proof.
  cbv zeta. repeat split; try (vm_compute; reflexivity).
  intros msg H. vm_compute in H. discriminate H.
Qed.

(** ** The caller's dictionary *)

(** C7, as the code has it: the page length is written into the caller's
    own dictionary whenever that dictionary holds something; a dictionary
    of its own is made only when the caller gives [None] or an empty one.
    After the call, however it ends, the caller's dictionary holds what it
    held before and the page length under ["max-records"]: nothing else
    is added or changed, no ["tag"] in particular, and every other
    dictionary of the store is as it was. *)
Theorem caller_args_after_call {FS}
    (transport : FS -> string -> gmap string pyval -> bool -> FS * response)
    fuel api l tun m (w : world FS) d :
  heap w !! l = Some d ->
  let w' := (send_iter_request transport fuel api (Some l) tun m w).2 in
  heap w' !! l
    = Some (if decide (d = ∅) then d else <["max-records" := PInt m]> d) /\
  (forall l' d', l' <> l -> heap w !! l' = Some d' -> heap w' !! l' = Some d').
Proof.
  intros Hl w'.
  destruct (send_iter_request_trace transport fuel api (Some l) tun m w)
    as (r0 & cs & _ & Hsub & _).
  fold w' in Hsub.
  assert (Hfresh := fresh_not_in (heap w)).
  split.
  - eapply lookup_weaken; [|exact Hsub].
    unfold request_heap, first_args, request_ref, original_args.
    rewrite Hl. simpl. destruct (decide (d = ∅)) as [->|Hd].
    + rewrite lookup_insert_ne; [done|]. intros E. congruence.
    + apply lookup_insert_eq.
  - intros l' d' Hne Hl'. eapply lookup_weaken; [|exact Hsub].
    unfold request_heap, request_ref. rewrite Hl. simpl.
    rewrite lookup_insert_ne; [done|].
    destruct (decide (d = ∅)); [|done]. intros E. congruence.
Qed.

Lemma caller_args_after_call_sample :
  let w' :=
    (send_iter_request scripted 5 "storage-disk-get-iter" (Some 1%positive)
       true 10
       (Sample.start Sample.three_pages)).2 in
  heap w' !! 1%positive
    = Some (if decide (Sample.caller_args = ∅) then Sample.caller_args
            else <["max-records" := PInt 10]> Sample.caller_args) /\
  (forall l' d', l' <> 1%positive ->
     heap (Sample.start Sample.three_pages) !! l' = Some d' ->
     heap w' !! l' = Some d').
Proof.
  apply (caller_args_after_call scripted 5 "storage-disk-get-iter" 1%positive
           true 10
           (Sample.start Sample.three_pages)
           Sample.caller_args).
  reflexivity.
Defined.

(** The caller's dictionary is not what it was: it has gained
    ["max-records"]. *)
Lemma caller_args_changed :
  let w := Sample.start [inr Sample.no_records] in
  let w' :=
    (send_iter_request scripted 0 "storage-disk-get-iter" (Some 1%positive)
       true 10 w).2 in
  heap w !! 1%positive = Some Sample.caller_args /\
  Sample.caller_args !! "max-records" = None /\
  (heap w' !! 1%positive) ≫= (fun d => d !! "max-records") = Some (PInt 10) /\
  heap w' !! 1%positive <> heap w !! 1%positive.
Proof.
  cbv zeta. split; [reflexivity|]. split; [reflexivity|].
  split; [vm_compute; reflexivity|].
  intros H.
  apply (f_equal (fun o => o ≫= (fun d : gmap string pyval => d !! "max-records"))) in H.
  vm_compute in H. discriminate H.
Qed.

(** ** The requests of one call *)

(** C8: whatever the transport answers and however the call ends, the
    requests it sends are these: the first carries the original arguments
    with the page length; every later one carries exactly those arguments
    with ["tag"] set to the tag of the page fetched just before it.  Each
    request is written into a dictionary object of its own, none of which
    is touched again: at the end every one of them still holds what was
    sent.  Two requests of one call therefore differ in ["tag"] and in
    nothing else. *)
Theorem requests_from_original_args {FS}
    (transport : FS -> string -> gmap string pyval -> bool -> FS * response)
    fuel api api_args tun m (w : world FS) :
  let w' := (send_iter_request transport fuel api api_args tun m w).2 in
  let args := first_args api_args m (heap w) in
  exists c0 cs,
    calls w' = calls w ++ c0 :: cs /\
    call_args c0 = args /\
    match cs with
    | [] => True
    | _ => exists p t, call_response c0 = inr p /\ next_tag_of p = Some t /\
                       follows api tun args t cs
    end /\
    NoDup (map call_ref (c0 :: cs)) /\
    Forall (fun c => heap w' !! call_ref c = Some (call_args c)) (c0 :: cs) /\
    Forall (fun c => delete "tag" (call_args c) = delete "tag" args) (c0 :: cs).
Proof.
  intros w' args.
  destruct (send_iter_request_trace transport fuel api api_args tun m w)
    as (r0 & cs & Hcalls & Hsub & Hchain & Hrefs & Hnodup).
  fold w' in Hcalls, Hsub, Hrefs. fold args in Hcalls, Hchain.
  eexists _, cs. split; [exact Hcalls|]. split; [done|].
  split; [exact Hchain|]. split; [|split].
  - simpl. constructor; [|done].
    intros Hin. apply list_elem_of_fmap in Hin as (c & Heq & Hin).
    rewrite Forall_forall in Hrefs. destruct (Hrefs c Hin) as [Hnone _].
    rewrite <- Heq, request_heap_lookup in Hnone. discriminate.
  - constructor.
    + simpl. eapply lookup_weaken; [|exact Hsub]. apply request_heap_lookup.
    + eapply Forall_impl; [exact Hrefs|]. by intros c [_ H].
  - constructor; [done|].
    assert (Hargs : Forall (fun c => exists t, call_args c = next_args args t) cs).
    { destruct cs as [|c1 cs1]; [constructor|].
      destruct Hchain as (p & t & _ & _ & Hf).
      by apply (follows_args api tun args t). }
    eapply Forall_impl; [exact Hargs|]. intros c [t ->].
    unfold next_args. apply delete_insert_eq.
Qed.

(** The three requests of the sample listing. *)
Lemma requests_of_three_pages :
  let w' :=
    (send_iter_request scripted 5 "storage-disk-get-iter" (Some 1%positive)
       true 10 (Sample.start Sample.three_pages)).2 in
  let args := <["max-records" := PInt 10]> Sample.caller_args in
  map call_args (calls w')
    = [args; next_args args "next_tag_1"; next_args args "next_tag_2"] /\
  map call_ref (calls w') = [1%positive; 2%positive; 3%positive] /\
  heap w' !! 1%positive = Some args.
Proof. cbv zeta. repeat split; vm_compute; reflexivity. Qed.

(** ** Whole listings *)

(** C1: when the transport answers a listing page by page, the last page
    being the one without a tag, [send_iter_request] returns a result
    whose records are the records of the pages, page after page and in
    the order of each page: nothing is sorted, dropped or repeated, and no
    page beyond the last is asked for. *)
Theorem items_are_concatenated p0 ps fuel api api_args tun m
    (w : world (list response)) rest :
  listing_ok p0 ps = true ->
  (length ps <= fuel)%nat ->
  server w = map inr (p0 :: ps) ++ rest ->
  exists r w',
    send_iter_request scripted fuel api api_args tun m w = (Return r, w') /\
    items_of r = concat (map items_of (p0 :: ps)) /\
    server w' = rest.
Proof.
  intros Hok Hfuel Hs.
  destruct (listing_run p0 ps Hok fuel api api_args tun m w rest Hfuel Hs)
    as (w' & Hrun & Hsrv & _).
  eexists _, w'. split; [exact Hrun|]. split; [|done].
  destruct ps as [|p1 ps].
  - simpl. by rewrite app_nil_r.
  - apply items_of_merged. unfold listing_ok in Hok.
    by apply andb_true_iff in Hok as [Hp0 _].
Qed.

Lemma items_are_concatenated_sample :
  exists r w',
    send_iter_request scripted 2 "storage-disk-get-iter" None true 10
      (World ∅ Sample.three_pages []) = (Return r, w') /\
    items_of r
      = concat (map items_of [Sample.page1; Sample.page2; Sample.page3]) /\
    server w' = [].
Proof.
  apply (items_are_concatenated Sample.page1 [Sample.page2; Sample.page3] 2
           "storage-disk-get-iter" None true 10
           (World ∅ Sample.three_pages []) []);
    [reflexivity | simpl; lia | reflexivity].
Defined.

(** C2: in a call of more than one page the record count of the result is
    the sum of the counts the pages declare; the number of records a page
    really carries plays no part, and a page whose count and records
    disagree is taken as it comes. *)
Theorem counts_are_summed p0 p1 ps fuel api api_args tun m
    (w : world (list response)) rest :
  listing_ok p0 (p1 :: ps) = true ->
  (length (p1 :: ps) <= fuel)%nat ->
  server w = map inr (p0 :: p1 :: ps) ++ rest ->
  exists r w',
    send_iter_request scripted fuel api api_args tun m w = (Return r, w') /\
    num_records_of r
      = Some (PyInt.text_type (total_declared (p0 :: p1 :: ps))) /\
    declared_count r = Some (total_declared (p0 :: p1 :: ps)).
Proof.
  intros Hok Hfuel Hs.
  destruct (listing_run p0 (p1 :: ps) Hok fuel api api_args tun m w rest
              Hfuel Hs) as (w' & Hrun & _).
  unfold listing_ok in Hok. apply andb_true_iff in Hok as [Hp0 _].
  eexists _, w'. split; [exact Hrun|].
  unfold declared_count. rewrite (num_records_of_merged p0 (p1 :: ps) Hp0).
  split; [done|]. apply PyIntFacts.of_text_text_type.
Qed.

Lemma counts_are_summed_sample :
  exists r w',
    send_iter_request scripted 2 "storage-disk-get-iter" None true 10
      (World ∅ [inr Sample.page1; inr Sample.page2_miscounted; inr Sample.page3] [])
      = (Return r, w') /\
    num_records_of r
      = Some (PyInt.text_type
                (total_declared
                   [Sample.page1; Sample.page2_miscounted; Sample.page3])) /\
    declared_count r
      = Some (total_declared
                [Sample.page1; Sample.page2_miscounted; Sample.page3]).
Proof.
  apply (counts_are_summed Sample.page1 Sample.page2_miscounted [Sample.page3]
           2 "storage-disk-get-iter" None true 10
           (World ∅ [inr Sample.page1; inr Sample.page2_miscounted;
                     inr Sample.page3] []) []);
    [reflexivity | simpl; lia | reflexivity].
Defined.

(** The sample listing: six records in page order and a count of six; with
    the second page declaring five for its one record, four records and a
    count of eight. *)
Lemma three_pages_merged :
  let r := (send_iter_request scripted 2 "storage-disk-get-iter" None true 10
              (World ∅ Sample.three_pages [])).1 in
  let r' := (send_iter_request scripted 2 "storage-disk-get-iter" None true 10
               (World ∅ [inr Sample.page1; inr Sample.page2_miscounted;
                         inr Sample.page3] [])).1 in
  r = Return
        (mk_page (Some (map Sample.disk ["a"; "b"; "c"; "d"; "e"; "f"]))
           (Some "") (Some "6")) /\
  r' = Return
         (mk_page (Some (map Sample.disk ["a"; "b"; "c"; "f"]))
            (Some "") (Some "8")).
Proof. cbv zeta. split; vm_compute; reflexivity. Qed.

(** ** Failures *)

(** C5: when a round-trip fails, the first or any later one, the call ends
    with the error of the transport as it came and returns nothing; what
    the pages before had brought is not handed out.  No request follows the
    failed one. *)
Theorem transport_error_aborts pre e fuel api api_args tun m
    (w : world (list response)) rest :
  leading pre = true ->
  (length pre <= fuel)%nat ->
  server w = map inr pre ++ inl e :: rest ->
  exists w',
    send_iter_request scripted fuel api api_args tun m w = (Raise e, w') /\
    server w' = rest /\
    length (calls w') = (length (calls w) + S (length pre))%nat.
Proof.
  intros Hlead Hfuel Hs.
  by apply (run_after_leading pre (inl e) Hlead fuel api api_args tun m w rest).
Qed.

Lemma transport_error_aborts_sample :
  exists w',
    send_iter_request scripted 4 "storage-disk-get-iter" None true 10
      (World ∅ Sample.third_of_four_fails []) = (Raise Sample.timeout, w') /\
    server w' = [inr Sample.page3] /\
    length (calls w') = (length (@nil call) + S (length [Sample.page1; Sample.page2]))%nat.
Proof.
  apply (transport_error_aborts [Sample.page1; Sample.page2] Sample.timeout 4
           "storage-disk-get-iter" None true 10
           (World ∅ Sample.third_of_four_fails []) [inr Sample.page3]);
    [reflexivity | simpl; lia | reflexivity].
Defined.

(** C3, as the code has it: in a call of more than one page, a page
    without a record count, be it the first or a later one, and a first
    page with an integer count and no attributes list, each end the call
    with a [NetAppDriverException]; nothing is returned and no further
    page is asked for. *)
Theorem malformed_page_fails pre bad fuel api api_args tun m
    (w : world (list response)) rest :
  leading pre = true ->
  malformed pre bad = true ->
  (length pre <= fuel)%nat ->
  server w = map inr pre ++ inr bad :: rest ->
  exists w',
    send_iter_request scripted fuel api api_args tun m w
      = (Raise (NetAppDriverException
                  (if no_count bad then missing_record_count
                   else missing_attributes_list api)), w') /\
    server w' = rest /\
    length (calls w') = (length (calls w) + S (length pre))%nat.
Proof.
  intros Hlead Hbad Hfuel Hs. unfold no_count.
  destruct (num_records_of bad) as [txt|] eqn:Ecount.
  - destruct pre as [|p0 mid]; simpl in Hbad; unfold no_count in Hbad;
      rewrite Ecount in Hbad; [|done]. simpl in Hbad.
    apply andb_true_iff in Hbad as [Htag Hbad].
    apply andb_true_iff in Hbad as [Hcount Hlist].
    apply negb_true_iff in Hlist.
    destruct (countable_declared bad Hcount) as [n Hn].
    rewrite send_iter_request_unfold. cbv zeta. simpl in Hs. rewrite Hs. simpl.
    rewrite Htag, (int_declared bad n Hn), Hlist.
    eexists. split; [reflexivity|]. simpl. split; [done|].
    rewrite length_app. simpl. lia.
  - apply (run_after_leading pre (inr bad) Hlead fuel api api_args tun m w rest
             Hfuel Hs).
    rewrite Ecount. simpl. split; [|done].
    intros ->. simpl in Hbad. by apply andb_true_iff in Hbad as [Htag _].
Qed.

Lemma malformed_page_fails_sample :
  exists w',
    send_iter_request scripted 4 "storage-disk-get-iter" None true 10
      (World ∅ [inr Sample.page1; inr Sample.tag_without_count; inr Sample.page3] [])
      = (Raise (NetAppDriverException
                  (if no_count Sample.tag_without_count
                   then missing_record_count
                   else missing_attributes_list "storage-disk-get-iter")), w') /\
    server w' = [inr Sample.page3] /\
    length (calls w') = (length (@nil call) + S (length [Sample.page1]))%nat.
Proof.
  apply (malformed_page_fails [Sample.page1] Sample.tag_without_count 4
           "storage-disk-get-iter" None true 10
           (World ∅ [inr Sample.page1; inr Sample.tag_without_count;
                     inr Sample.page3] []) [inr Sample.page3]);
    [reflexivity | reflexivity | simpl; lia | reflexivity].
Defined.

(** Three pages that the claim would have fail with a
    [NetAppDriverException] and that do not: a later page with a tag and no
    attributes list is taken as a page without records and the call
    returns; a count that is not a number ends the call with a
    [ValueError]; a negative count is added as it is. *)
Lemma malformed_pages_not_rejected :
  let run script :=
    (send_iter_request scripted 4 "storage-disk-get-iter" None true 10
       (World ∅ script [])).1 in
  has_attributes_list Sample.later_page_without_list = false /\
  has_tag Sample.later_page_without_list = true /\
  run [inr Sample.page1; inr Sample.later_page_without_list; inr Sample.page3]
    = Return (mk_page (Some (map Sample.disk ["a"; "b"; "f"]))
                (Some "") (Some "6")) /\
  run [inr Sample.count_not_a_number; inr Sample.page3] = Raise ValueError /\
  run [inr Sample.page1; inr Sample.negative_count; inr Sample.page3]
    = Return (mk_page (Some (map Sample.disk ["a"; "b"; "c"; "f"]))
                (Some "") (Some "0")).
Proof. cbv zeta. repeat split; vm_compute; reflexivity. Qed.

(** ** Termination *)

(** C9: the loop ends by itself exactly when a page without a tag comes.
    Once such a page has been fetched the call is over, and no more fuel
    changes that; and there is nothing else to stop it: against a
    transport that answers a tag with every page, the same tag even, the
    call makes one round-trip more for every unit of fuel it is given and
    never returns. *)
Theorem ends_only_on_a_page_without_tag {FS}
    (transport : FS -> string -> gmap string pyval -> bool -> FS * response)
    api api_args tun m (w : world FS) :
  (forall fuel,
     let r := send_iter_request transport fuel api api_args tun m w in
     Exists (fun c => exists p, call_response c = inr p /\ next_tag_of p = None)
       (drop (length (calls w)) (calls r.2)) ->
     r.1 <> OutOfFuel /\
     forall k, send_iter_request transport (fuel + k) api api_args tun m w = r)
  /\
  ((forall s a args t, goes_on (transport s a args t).2 = true) ->
   starts (transport (server w) api (first_args api_args m (heap w)) tun).2
     = true ->
   forall fuel,
     let r := send_iter_request transport fuel api api_args tun m w in
     r.1 = OutOfFuel /\ length (calls r.2) = (length (calls w) + S fuel)%nat).
Proof.
  split.
  - intros fuel r Hex.
    assert (Hout : r.1 <> OutOfFuel).
    { intros Hout.
      destruct (send_iter_request_out_of_fuel transport fuel api api_args tun m
                  w Hout) as (cs & Hcalls & _ & Hall).
      fold r in Hcalls. rewrite Hcalls, drop_app_length in Hex.
      apply Exists_exists in Hex as (c & Hin & p & Hresp & Htag).
      rewrite Forall_forall in Hall. specialize (Hall c Hin).
      rewrite Hresp in Hall. simpl in Hall. unfold has_tag in Hall.
      by rewrite Htag in Hall. }
    split; [exact Hout|]. intros k.
    by apply send_iter_request_more_fuel.
  - intros Hgo Hstart fuel.
    by apply send_iter_request_forever.
Qed.

(** A transport that answers the same page with the same tag over and
    over: seven units of fuel, eight round-trips, no result. *)
Lemma same_tag_forever :
  let r := send_iter_request (always Sample.again) 7 "storage-disk-get-iter"
             None true 10 (World ∅ tt []) in
  r.1 = OutOfFuel /\ length (calls r.2) = (length (@nil call) + 8)%nat.
Proof.
  apply (proj2 (ends_only_on_a_page_without_tag (always Sample.again)
                  "storage-disk-get-iter" None true 10 (World ∅ tt [])));
    [intros; reflexivity | reflexivity].
Defined.

(** ** The two tests on the tag *)

#[local] Arguments remaining_pages : simpl never.

(** C10: the first page is tested for a tag that is [None] or empty, and
    either way it is returned as the whole answer; a later page ends the
    loop only with a tag that is [None].  A later page whose tag is the
    empty text keeps the loop going, and the next request is sent with
    ["tag"] set to the empty text. *)
Theorem tag_tests_differ fuel api api_args tun m (w : world (list response)) :
  (forall p rest,
     server w = inr p :: rest ->
     next_tag_of p = None \/ next_tag_of p = Some "" ->
     let r := send_iter_request scripted fuel api api_args tun m w in
     r.1 = Return p /\ length (calls r.2) = (length (calls w) + 1)%nat)
  /\
  (forall p0 p r2 rest,
     server w = inr p0 :: inr p :: r2 :: rest ->
     opening p0 = true ->
     countable p = true ->
     (next_tag_of p = None ->
      let r := send_iter_request scripted (S fuel) api api_args tun m w in
      r.1 = Return (merged p0 [p]) /\
      length (calls r.2) = (length (calls w) + 2)%nat)
     /\
     (next_tag_of p = Some "" ->
      let r := send_iter_request scripted (S (S fuel)) api api_args tun m w in
      exists c0 c1 c2 cs,
        calls r.2 = calls w ++ c0 :: c1 :: c2 :: cs /\
        call_response c1 = inr p /\
        call_args c2 = next_args (first_args api_args m (heap w)) "" /\
        call_response c2 = r2)).
Proof.
  split.
  - intros p rest Hs Htag r. subst r.
    rewrite send_iter_request_unfold. cbv zeta. rewrite Hs. simpl.
    assert (Hfalse : truthy (next_tag_of p) = false)
      by (by destruct Htag as [-> | ->]).
    rewrite Hfalse. simpl. split; [done|]. rewrite length_app. simpl. lia.
  - intros p0 p r2 rest Hs Hp0 Hcount. split.
    + intros Htag r. subst r.
      assert (Hok : listing_ok p0 [p] = true).
      { simpl. rewrite Hp0. simpl. unfold closing, has_tag.
        by rewrite Hcount, Htag. }
      destruct (listing_run p0 [p] Hok (S fuel) api api_args tun m w
                  (r2 :: rest)) as (w' & Hrun & _ & Hlen).
      * simpl. lia.
      * by rewrite Hs.
      * rewrite Hrun. simpl. split; [done|]. rewrite Hlen. simpl. lia.
    + intros Htag r. subst r.
      pose proof Hp0 as Hopen. unfold opening in Hp0.
      apply andb_true_iff in Hp0 as [Hp0 Hlist].
      apply andb_true_iff in Hp0 as [Htag0 Hcount0].
      destruct (countable_declared p0 Hcount0) as [n0 Hn0].
      destruct (countable_declared p Hcount) as [n Hn].
      rewrite send_iter_request_unfold. cbv zeta. rewrite Hs. simpl.
      rewrite Htag0, (int_declared p0 n0 Hn0), Hlist.
      destruct (next_tag_of p0) as [t0|] eqn:Et0; [|done].
      rewrite bind_finish_world.
      rewrite remaining_pages_step. cbv zeta. simpl.
      rewrite (int_declared p n Hn), Htag.
      rewrite remaining_pages_step. cbv zeta. simpl.
      rewrite request_heap_lookup. simpl.
      pose proof (fresh_not_in (request_heap api_args m (heap w))) as Hfresh.
      rewrite lookup_insert_ne
        by (intros E; rewrite E, request_heap_lookup in Hfresh; discriminate).
      rewrite request_heap_lookup. simpl.
      set (l := request_ref api_args (heap w)).
      set (args := first_args api_args m (heap w)).
      set (h1 := request_heap api_args m (heap w)) in *.
      set (h2 := <[fresh (dom h1) := next_args args t0]> h1).
      assert (Hstop : forall (w2 : world (list response)) c0 c1 c2 cs,
                calls w2 = (((calls w ++ [c0]) ++ [c1]) ++ [c2]) ++ cs ->
                call_response c1 = inr p ->
                call_args c2 = next_args args "" ->
                call_response c2 = r2 ->
                exists c0' c1' c2' cs',
                  calls w2 = calls w ++ c0' :: c1' :: c2' :: cs' /\
                  call_response c1' = inr p /\
                  call_args c2' = next_args args "" /\
                  call_response c2' = r2).
      { intros w2 c0 c1 c2 cs Hc H1 H2 H3. exists c0, c1, c2, cs.
        rewrite Hc. by rewrite <- !app_assoc. }
      assert (Hl : h2 !! l = Some args).
      { subst h2. rewrite lookup_insert_ne
          by (intros E; subst l h1; rewrite E, request_heap_lookup in Hfresh;
              discriminate).
        apply request_heap_lookup. }
      destruct r2 as [e|p2];
        [eapply (Hstop _ _ _ _ []); [by rewrite app_nil_r|done..]|].
      destruct (PyInt.int (num_records_of p2)) as [[]|n2];
        try (eapply (Hstop _ _ _ _ []); [by rewrite app_nil_r|done..]).
      set (w3 := World _ _ _).
      assert (Hl3 : heap w3 !! l = Some args).
      { subst w3. simpl. rewrite lookup_insert_ne; [done|].
        intros E. pose proof (fresh_not_in h2) as Hf.
        rewrite E, Hl in Hf. discriminate. }
      destruct (remaining_pages_trace scripted fuel api l tun
                  (save_records (items_of p2)
                     (save_records (items_of p) p0))
                  (n0 + n + n2) (next_tag_of p2) w3 args Hl3)
        as (cs & Hcalls & _).
      eapply (Hstop _ _ _ _ cs); [exact Hcalls|done..].
Qed.

(** A second page with an empty tag: the third request goes out, with
    an empty ["tag"]. *)
Lemma tag_tests_differ_sample :
  let w := World ∅ [inr Sample.page1; inr Sample.empty_tag; inr Sample.page3] [] in
  let r := send_iter_request scripted 2 "storage-disk-get-iter" None true 10 w in
  exists c0 c1 c2 cs,
    calls r.2 = calls w ++ c0 :: c1 :: c2 :: cs /\
    call_response c1 = inr Sample.empty_tag /\
    call_args c2 = next_args (first_args None 10 (heap w)) "" /\
    call_response c2 = inr Sample.page3.
Proof.
  cbv zeta.
  apply (proj2 (tag_tests_differ 0 "storage-disk-get-iter" None true 10
                  (World ∅ [inr Sample.page1; inr Sample.empty_tag;
                            inr Sample.page3] []))
           Sample.page1 Sample.empty_tag (inr Sample.page3) []);
    reflexivity.
Defined.

(** * The other requests of the client: properties *)

(** ** Facts about [clone_lun] *)

Module CloneFacts.
Import Clone.

#[local] Arguments PyInt.int : simpl never.
#[local] Arguments PyInt.text_type : simpl never.

Lemma ceil_div_bounds n d :
  0 < d -> let k := ceil_div n d in (k - 1) * d < n <= k * d.
Proof.
  intros Hd k. subst k. unfold ceil_div.
  pose proof (Z.div_mod (- n) d ltac:(lia)) as Hdm.
  pose proof (Z.mod_pos_bound (- n) d Hd) as Hm.
  nia.
Qed.

Lemma ceil_div_pos n d : 0 < d -> 0 < n -> 0 < ceil_div n d.
Proof. intros Hd Hn. pose proof (ceil_div_bounds n d Hd). simpl in *. nia. Qed.

Lemma ceil_div_unique n d k :
  0 < d -> (k - 1) * d < n <= k * d -> ceil_div n d = k.
Proof. intros Hd Hk. pose proof (ceil_div_bounds n d Hd). simpl in *. nia. Qed.

(** [n] chunks of at most [limit] take exactly [x], when [n] is the
    least number of chunks that can. *)
Lemma chunks_spec limit n :
  0 < limit ->
  forall x,
    0 < x -> (Z.of_nat n - 1) * limit < x <= Z.of_nat n * limit ->
    length (chunks limit n x) = n /\
    total (chunks limit n x) = x /\
    Forall (fun c => 0 < c <= limit) (chunks limit n x).
Proof.
  intros Hl. induction n as [|n IH]; intros x Hx Hn.
  - simpl in Hn. lia.
  - simpl. destruct (Z.ltb_spec limit x) as [Hlt|Hge].
    + destruct (IH (x - limit)) as (H1 & H2 & H3); [lia|lia|].
      simpl. rewrite H1. split; [done|]. split.
      * unfold total in *. simpl. lia.
      * constructor; [lia|done].
    + assert (n = 0%nat) as -> by nia. simpl.
      split; [done|]. split; [unfold total; simpl; lia|].
      constructor; [lia|constructor].
Qed.

Lemma chunks_ceil limit x :
  0 < limit -> 0 < x ->
  let cs := chunks limit (Z.to_nat (ceil_div x limit)) x in
  Z.of_nat (length cs) = ceil_div x limit /\
  total cs = x /\ Forall (fun c => 0 < c <= limit) cs.
Proof.
  intros Hl Hx cs. subst cs.
  pose proof (ceil_div_pos x limit Hl Hx) as Hk.
  pose proof (ceil_div_bounds x limit Hl) as Hb. simpl in Hb.
  destruct (chunks_spec limit (Z.to_nat (ceil_div x limit)) Hl x Hx)
    as (H1 & H2 & H3); [rewrite Z2Nat.id; lia|].
  rewrite H1, Z2Nat.id by lia. done.
Qed.

Lemma total_app l k : total (l ++ k) = total l + total k.
Proof.
  induction l as [|x l IH]; [done|]. unfold total in *. simpl. rewrite IH. lia.
Qed.

Lemma tiles_ranges_from src dst counts : tiles src dst (ranges_from src dst counts).
Proof. revert src dst. induction counts as [|c cs IH]; simpl; auto. Qed.

Lemma blocks_of_ranges_from src dst counts :
  blocks_of (ranges_from src dst counts) = total counts.
Proof.
  revert src dst. induction counts as [|c cs IH]; intros; simpl; [done|].
  unfold blocks_of in *. simpl. rewrite IH. reflexivity.
Qed.

Lemma ranges_from_app src dst cs ds :
  ranges_from src dst (cs ++ ds)
    = ranges_from src dst cs ++ ranges_from (src + total cs) (dst + total cs) ds.
Proof.
  revert src dst. induction cs as [|c cs IH]; intros src dst; simpl.
  - unfold total. simpl. by rewrite !Z.add_0_r.
  - rewrite IH. unfold total. simpl. by rewrite !Z.add_assoc.
Qed.

Lemma length_ranges_from src dst cs :
  length (ranges_from src dst cs) = length cs.
Proof. revert src dst. induction cs; intros; simpl; auto. Qed.

(** A range written into an element reads back as it was. *)
Lemma block_range_of_element r : block_range_of (block_range_element r) = Some r.
Proof.
  destruct r as [[s d] c]. unfold block_range_of, block_range_element.
  cbn. by rewrite !PyIntFacts.int_text_type.
Qed.

Lemma get_children_fold_add es brs :
  Na.get_children (fold_left (fun b e => Na.add_child_elem e b) es brs)
    = Na.get_children brs ++ es.
Proof.
  revert brs. induction es as [|e es IH]; intros brs; simpl.
  - by rewrite app_nil_r.
  - rewrite IH. destruct brs. simpl. by rewrite <- app_assoc.
Qed.

Lemma get_name_fold_add es brs :
  Na.get_name (fold_left (fun b e => Na.add_child_elem e b) es brs)
    = Na.get_name brs.
Proof.
  revert brs. induction es as [|e es IH]; intros brs; simpl; [done|].
  rewrite IH. by destruct brs.
Qed.

(** The inner loop appends the ranges of its chunks. *)
Lemma block_ranges_loop_spec n :
  forall bc src dst brs,
    block_ranges_loop n bc src dst brs =
      (fold_left (fun b e => Na.add_child_elem e b)
         (map block_range_element (ranges_from src dst (chunks bc_limit n bc)))
         brs,
       (src + total (chunks bc_limit n bc), dst + total (chunks bc_limit n bc))).
Proof.
  induction n as [|n IH]; intros bc src dst brs.
  - simpl. unfold total. simpl. by rewrite !Z.add_0_r.
  - cbn [block_ranges_loop chunks].
    destruct (bc_limit <? bc)%Z; rewrite IH; cbn [ranges_from map fold_left];
      unfold total; cbn [fold_right]; by rewrite !Z.add_assoc.
Qed.

Lemma find_child_app n cs ds :
  Na.find_child n (cs ++ ds)
    = match Na.find_child n cs with
      | Some c => Some c
      | None => Na.find_child n ds
      end.
Proof.
  induction cs as [|c cs IH]; simpl; [done|].
  by destruct (String.eqb (Na.get_name c) n).
Qed.

Section Element.

Variables volume name new_name space_reserved : string.
Variables qos_policy_group_name source_snapshot : option string.

Abbreviation element :=
  (clone_create_element volume name new_name space_reserved
     qos_policy_group_name source_snapshot).

(** The element of a call for [b > 0] blocks carries the ranges of the
    segments of [b], from the running block numbers on. *)
Lemma element_with_blocks b src dst :
  0 < b ->
  block_ranges_of (element b src dst).1
    = map Some (ranges_from src dst (segments_of b)) /\
  (element b src dst).2 = (src + b, dst + b).
Proof.
  intros Hb. unfold clone_create_element.
  destruct (Z.ltb_spec 0 b) as [_|]; [|lia].
  rewrite block_ranges_loop_spec. cbn [fst snd].
  assert (Hl : 0 < bc_limit) by (unfold bc_limit; lia).
  destruct (chunks_ceil bc_limit b Hl Hb) as (_ & Htot & _).
  fold (segments_of b) in *. rewrite Htot. split; [|done].
  unfold block_ranges_of, Na.get_child_by_name.
  set (brs := fold_left _ _ _).
  assert (Hname : Na.get_name brs = "block-ranges")
    by (subst brs; by rewrite get_name_fold_add).
  assert (Hkids : Na.get_children brs
                  = map block_range_element (ranges_from src dst (segments_of b)))
    by (subst brs; by rewrite get_children_fold_add).
  assert (Hfind : forall e,
            Na.find_child "block-ranges" (Na.get_children e) = None ->
            Na.find_child "block-ranges"
              (Na.get_children (Na.add_child_elem brs e)) = Some brs).
  { intros [en ec ecs] He. simpl in *. rewrite find_child_app, He. simpl.
    by rewrite Hname. }
  rewrite Hfind.
  - rewrite Hkids, map_map. apply map_ext. intros r.
    apply block_range_of_element.
  - destruct (truthy source_snapshot), qos_policy_group_name; reflexivity.
Qed.

(** The element of a call for no blocks has no [block-ranges] at all. *)
Lemma element_without_blocks b src dst :
  b <= 0 ->
  Na.get_child_by_name (element b src dst).1 "block-ranges" = None /\
  block_ranges_of (element b src dst).1 = [] /\
  (element b src dst).2 = (src, dst).
Proof.
  intros Hb. unfold clone_create_element, block_ranges_of.
  destruct (Z.ltb_spec 0 b) as [|_]; [lia|]. cbn [fst snd].
  assert (H : forall e, Na.get_child_by_name e "block-ranges" = None ->
                match Na.get_child_by_name e "block-ranges" with
                | Some brs => map block_range_of (Na.get_children brs)
                | None => []
                end = []) by (by intros e ->).
  destruct (truthy source_snapshot), qos_policy_group_name;
    (split; [reflexivity|split; [reflexivity|reflexivity]]).
Qed.

Abbreviation elements :=
  (elements_for volume name new_name space_reserved
     qos_policy_group_name source_snapshot).

Lemma length_elements counts src dst :
  length (elements counts src dst) = length counts.
Proof.
  revert src dst. induction counts as [|b rest IH]; intros src dst; [done|].
  cbn [elements_for]. destruct (element b src dst) as [el [s d]].
  simpl. by rewrite IH.
Qed.

(** The calls for positive counts carry, one after the other, the ranges
    of the segments of all the counts. *)
Lemma elements_ranges counts :
  Forall (fun b => 0 < b) counts ->
  forall src dst,
    concat (map block_ranges_of (elements counts src dst))
      = map Some (ranges_from src dst (concat (map segments_of counts))).
Proof.
  induction 1 as [|b rest Hb Hrest IH]; intros src dst; [done|].
  cbn [elements_for].
  destruct (element_with_blocks b src dst Hb) as [Hr Hsd].
  destruct (element b src dst) as [el [s d]]. simpl in Hr, Hsd.
  injection Hsd as -> ->. cbn [map concat]. rewrite Hr, IH.
  rewrite ranges_from_app, map_app.
  assert (Hl : 0 < bc_limit) by (unfold bc_limit; lia).
  destruct (chunks_ceil bc_limit b Hl Hb) as (_ & Htot & _).
  fold (segments_of b) in Htot. by rewrite Htot.
Qed.

(** No call for a count of at most [z_limit] goes beyond 32 ranges or
    beyond [2^24] blocks in a range. *)
Lemma elements_within_limits counts :
  Forall (fun b => b <= z_limit) counts ->
  forall src dst,
    Forall (fun el =>
              (length (block_ranges_of el) <= 32)%nat /\
              Forall (fun r => exists s d c,
                        r = Some (s, d, c) /\ 0 < c <= bc_limit)
                (block_ranges_of el))
      (elements counts src dst).
Proof.
  induction 1 as [|b rest Hb Hrest IH]; intros src dst; [constructor|].
  cbn [elements_for].
  destruct (Z.ltb_spec 0 b) as [Hpos|Hneg].
  - destruct (element_with_blocks b src dst Hpos) as [Hr Hsd].
    destruct (element b src dst) as [el [s d]]. simpl in Hr, Hsd.
    constructor; [|apply IH].
    assert (Hl : 0 < bc_limit) by (unfold bc_limit; lia).
    destruct (chunks_ceil bc_limit b Hl Hpos) as (Hlen & _ & Hall).
    fold (segments_of b) in Hlen, Hall.
    pose proof (ceil_div_bounds b bc_limit Hl) as Hk. simpl in Hk.
    rewrite Hr. split.
    + rewrite length_map, length_ranges_from.
      unfold z_limit, br_limit in Hb. nia.
    + apply Forall_fmap. clear Hlen Hr Hsd. revert src dst.
      induction Hall as [|c cs Hc Hcs IHc]; intros src dst; simpl;
        constructor; [by exists src, dst, c|apply IHc].
  - destruct (element_without_blocks b src dst Hneg) as (_ & Hr & Hsd).
    destruct (element b src dst) as [el [s d]]. simpl in Hr, Hsd.
    constructor; [|apply IH]. rewrite Hr. split; [simpl; lia|constructor].
Qed.

End Element.

Lemma chunks_at_most limit n x :
  0 < limit -> Forall (fun c => c <= limit) (chunks limit n x).
Proof.
  intros Hl. revert x. induction n as [|n IH]; intros x; simpl; [constructor|].
  destruct (Z.ltb_spec limit x); constructor; auto; lia.
Qed.

Lemma length_chunks limit n x : length (chunks limit n x) = n.
Proof.
  revert x. induction n as [|n IH]; intros x; simpl; [done|].
  destruct (limit <? x)%Z; simpl; by rewrite IH.
Qed.

Section CallFacts.

Context {FS : Type}.
Variable invoke : FS -> NaElement -> bool -> FS * response.
Variables volume name new_name space_reserved : string.
Variables qos_policy_group_name source_snapshot : option string.

Abbreviation calls_loop n :=
  (clone_calls invoke n volume name new_name space_reserved
     qos_policy_group_name source_snapshot).
Abbreviation planned counts :=
  (elements_for volume name new_name space_reserved
     qos_policy_group_name source_snapshot counts).

(** The loop sends the planned elements in order, up to the first that
    the connection refuses. *)
Lemma clone_calls_sends n :
  forall zbc src dst (c : link FS),
    let r := calls_loop n zbc src dst c in
    exists m,
      (m <= n)%nat /\
      sent r.2 = sent c ++
        map with_tunnel (take m (planned (chunks z_limit n zbc) src dst)) /\
      (r.1 = Return tt -> m = n) /\
      ((forall s e t, is_page (invoke s e t).2 = true) -> r.1 = Return tt).
Proof.
  induction n as [|n IH]; intros zbc src dst c.
  - exists 0%nat. simpl. rewrite app_nil_r. auto.
  - cbn [clone_calls chunks].
    set (b := if (z_limit <? zbc)%Z then z_limit else zbc).
    set (zbc' := if (z_limit <? zbc)%Z then zbc - z_limit else zbc).
    assert (Hc : chunks z_limit (S n) zbc = b :: chunks z_limit n zbc')
      by (subst b zbc'; simpl; by destruct (z_limit <? zbc)%Z).
    assert (Hp : (if (z_limit <? zbc)%Z then (z_limit, zbc - z_limit)
                  else (zbc, zbc)) = (b, zbc'))
      by (subst b zbc'; by destruct (z_limit <? zbc)%Z).
    rewrite Hp. simpl in Hc. rewrite Hc. cbn [elements_for].
    destruct (clone_create_element volume name new_name space_reserved
                qos_policy_group_name source_snapshot b src dst)
      as [el [s d]].
    unfold kbind, invoke_successfully.
    destruct (invoke (remote c) el true) as [s' r0] eqn:Hi.
    destruct r0 as [e|page].
    + exists 1%nat. simpl. split; [lia|]. split; [done|]. split; [done|].
      intros Hall. specialize (Hall (remote c) el true).
      by rewrite Hi in Hall.
    + set (c1 := Link s' (sent c ++ [(el, true)])).
      destruct (IH zbc' s d c1) as (m & Hm & Hsent & Hret & Hall).
      exists (S m). split; [lia|]. split; [|split].
      * rewrite Hsent. subst c1. simpl. by rewrite <- app_assoc.
      * intros H. f_equal. by apply Hret.
      * exact Hall.
Qed.

End CallFacts.

End CloneFacts.

(** ** Properties of [clone_lun] *)

Section CloneProperties.
Import Clone CloneFacts.

Context {FS : Type}.
Variable invoke : FS -> NaElement -> bool -> FS * response.
Variables volume name new_name space_reserved : string.
Variables qos_policy_group_name source_snapshot : option string.

Abbreviation clone src_block dest_block block_count :=
  (clone_lun invoke volume name new_name space_reserved
     qos_policy_group_name src_block dest_block block_count source_snapshot).

Lemma requests_since_sent (c c' : link FS) es :
  sent c' = sent c ++ map with_tunnel es -> requests_since c c' = es.
Proof.
  intros H. unfold requests_since. rewrite H, drop_app_length, map_map.
  simpl. apply map_id.
Qed.

(** The calls of [clone_lun] for a positive number of blocks. *)
Lemma clone_lun_sends src dst bc (c : link FS) :
  0 < bc ->
  let cs := chunks z_limit (Z.to_nat (ceil_div bc z_limit)) bc in
  let r := clone src dst bc c in
  exists m,
    requests_since c r.2
      = take m (elements_for volume name new_name space_reserved
                  qos_policy_group_name source_snapshot cs src dst) /\
    (r.1 = Return tt -> m = length cs) /\
    ((forall s e t, is_page (invoke s e t).2 = true) -> r.1 = Return tt).
Proof.
  intros Hbc cs r. subst r. unfold clone_lun.
  assert (Hz : 0 < z_limit) by (unfold z_limit, br_limit, bc_limit; lia).
  pose proof (ceil_div_pos bc z_limit Hz Hbc) as Hk.
  destruct (Z.eqb_spec (ceil_div bc z_limit) 0) as [E|_]; [lia|].
  destruct (clone_calls_sends invoke volume name new_name space_reserved
              qos_policy_group_name source_snapshot
              (Z.to_nat (ceil_div bc z_limit)) bc src dst c)
    as (m & _ & Hsent & Hret & Hall).
  exists m. split; [by apply requests_since_sent|]. split; [|done].
  intros H. subst cs. rewrite length_chunks. by apply Hret.
Qed.

(** The calls of [clone_lun] for any number of blocks. *)
Lemma clone_lun_sends_any src dst bc (c : link FS) :
  let k := ceil_div bc z_limit in
  let cs := chunks z_limit (Z.to_nat (if (k =? 0)%Z then 1 else k)) bc in
  let r := clone src dst bc c in
  exists m,
    requests_since c r.2
      = take m (elements_for volume name new_name space_reserved
                  qos_policy_group_name source_snapshot cs src dst) /\
    (r.1 = Return tt -> m = length cs) /\
    ((forall s e t, is_page (invoke s e t).2 = true) -> r.1 = Return tt).
Proof.
  intros k cs r. subst r. unfold clone_lun. fold k.
  destruct (clone_calls_sends invoke volume name new_name space_reserved
              qos_policy_group_name source_snapshot
              (Z.to_nat (if (k =? 0)%Z then 1 else k)) bc src dst c)
    as (m & _ & Hsent & Hret & Hall).
  exists m. split; [by apply requests_since_sent|]. split; [|done].
  intros H. subst cs. rewrite length_chunks. by apply Hret.
Qed.

(** X1: whatever the number of blocks and whatever the connection
    answers, no call of [clone_lun] carries more than 32 block ranges, and
    no range is empty or longer than [2^24] blocks. *)
Theorem clone_lun_within_limits src dst bc (c : link FS) :
  float_exact bc ->
  Forall (fun el =>
            (length (block_ranges_of el) <= 32)%nat /\
            Forall (fun r => exists s d n,
                      r = Some (s, d, n) /\ 0 < n <= 2 ^ 24)
              (block_ranges_of el))
    (requests_since c (clone src dst bc c).2).
Proof.
  intros _.
  destruct (clone_lun_sends_any src dst bc c) as (m & Hreq & _).
  rewrite Hreq. apply Forall_take.
  apply elements_within_limits, chunks_at_most.
  unfold z_limit, br_limit, bc_limit. lia.
Qed.

(** X2: when every call succeeds, [clone_lun] for [block_count > 0]
    returns, and the block ranges of its calls, read one call after the
    other, follow each other without gap or overlap from [src_block] in
    the source and from [dest_block] in the destination, [block_count]
    blocks in all. *)
Theorem clone_lun_covers_blocks src dst bc (c : link FS) :
  float_exact bc ->
  0 < bc ->
  (forall s e t, is_page (invoke s e t).2 = true) ->
  let r := clone src dst bc c in
  r.1 = Return tt /\
  exists rs,
    concat (map block_ranges_of (requests_since c r.2)) = map Some rs /\
    tiles src dst rs /\
    blocks_of rs = bc.
Proof.
  intros _ Hbc Hall r.
  destruct (clone_lun_sends src dst bc c Hbc) as (m & Hreq & Hret & Hok).
  fold r in Hreq, Hret, Hok. specialize (Hok Hall). specialize (Hret Hok).
  split; [done|].
  assert (Hz : 0 < z_limit) by (unfold z_limit, br_limit, bc_limit; lia).
  destruct (chunks_ceil z_limit bc Hz Hbc) as (_ & Htot & Hpos).
  set (cs := chunks z_limit (Z.to_nat (ceil_div bc z_limit)) bc) in *.
  exists (ranges_from src dst (concat (map segments_of cs))).
  rewrite Hreq, Hret, <- (length_elements volume name new_name space_reserved
                           qos_policy_group_name source_snapshot cs src dst),
    firstn_all.
  split; [|split].
  - apply elements_ranges. eapply Forall_impl; [exact Hpos|].
    intros b Hb. simpl in Hb. lia.
  - apply tiles_ranges_from.
  - rewrite blocks_of_ranges_from, <- Htot.
    assert (Hl : 0 < bc_limit) by (unfold bc_limit; lia).
    clear Htot Hreq Hret. induction Hpos as [|b bs Hb Hbs IH]; [done|].
    cbn [map concat]. rewrite total_app, IH.
    destruct (chunks_ceil bc_limit b Hl ltac:(lia)) as (_ & Hsum & _).
    fold (segments_of b) in Hsum. rewrite Hsum. reflexivity.
Qed.

(** X3: when every call succeeds, [clone_lun] for [block_count >= 0]
    makes one call for every [2^29] blocks or part of it, and one call
    when there are no blocks to name. *)
Theorem clone_lun_number_of_calls src dst bc (c : link FS) :
  float_exact bc ->
  0 <= bc ->
  (forall s e t, is_page (invoke s e t).2 = true) ->
  let calls_made := Z.of_nat (length (requests_since c (clone src dst bc c).2)) in
  calls_made = Z.max 1 (ceil_div bc (2 ^ 29)) /\
  (calls_made - 1) * 2 ^ 29 < Z.max 1 bc <= calls_made * 2 ^ 29.
Proof.
  intros _ Hbc Hall calls_made. subst calls_made.
  destruct (clone_lun_sends_any src dst bc c) as (m & Hreq & Hret & Hok).
  specialize (Hret (Hok Hall)).
  rewrite Hreq, Hret, <- (length_elements volume name new_name space_reserved
                           qos_policy_group_name source_snapshot _ src dst),
    firstn_all, length_elements, length_chunks.
  change (2 ^ 29) with z_limit.
  assert (Hz : 0 < z_limit) by (unfold z_limit, br_limit, bc_limit; lia).
  pose proof (ceil_div_bounds bc z_limit Hz) as Hk. simpl in Hk.
  destruct (Z.eqb_spec (ceil_div bc z_limit) 0) as [E|E].
  - rewrite E in *. simpl. lia.
  - rewrite Z2Nat.id by nia. nia.
Qed.

(** X4: for [block_count] zero, the default, and down to [-2^29]
    exclusive, [clone_lun] makes exactly one call, and that call names no
    block range at all: the clone is of the whole LUN.  The block numbers
    given play no part. *)
Theorem clone_lun_without_blocks src dst bc (c : link FS) :
  float_exact bc ->
  - 2 ^ 29 < bc <= 0 ->
  exists el,
    requests_since c (clone src dst bc c).2 = [el] /\
    Na.get_child_by_name el "block-ranges" = None /\
    el = (clone_create_element volume name new_name space_reserved
            qos_policy_group_name source_snapshot bc 0 0).1.
Proof.
  intros _ Hbc.
  assert (Hz : 0 < z_limit) by (unfold z_limit, br_limit, bc_limit; lia).
  assert (Hk : ceil_div bc z_limit = 0).
  { apply ceil_div_unique; [done|]. change z_limit with (2 ^ 29). lia. }
  unfold clone_lun. rewrite Hk.
  change (Z.to_nat (if (0 =? 0)%Z then 1 else 0)) with 1%nat.
  cbn [clone_calls].
  assert (Hlt : (z_limit <? bc)%Z = false)
    by (apply Z.ltb_ge; change z_limit with (2 ^ 29); lia).
  rewrite Hlt.
  destruct (element_without_blocks volume name new_name space_reserved
              qos_policy_group_name source_snapshot bc src dst
              ltac:(lia)) as (Hnone & _ & _).
  assert (Hsame :
    (clone_create_element volume name new_name space_reserved
       qos_policy_group_name source_snapshot bc src dst).1
    = (clone_create_element volume name new_name space_reserved
         qos_policy_group_name source_snapshot bc 0 0).1).
  { unfold clone_create_element.
    destruct (Z.ltb_spec 0 bc) as [|_]; [lia|]. reflexivity. }
  destruct (clone_create_element volume name new_name space_reserved
              qos_policy_group_name source_snapshot bc src dst)
    as [el [s d]] eqn:Hel.
  exists el. simpl in Hnone, Hsame. split; [|split; [done|done]].
  unfold kbind, invoke_successfully, requests_since.
  destruct (invoke (remote c) el true) as [s' [e|page]]; simpl;
    by rewrite drop_app_length.
Qed.

End CloneProperties.

Lemma clone_calls_failure volume name new_name space_reserved
    qos_policy_group_name source_snapshot pages :
  forall n zbc src dst (c : link (list response)) e rest,
    (length pages < n)%nat ->
    remote c = map inr pages ++ inl e :: rest ->
    let r := Clone.clone_calls Clone.replaying n volume name new_name
               space_reserved qos_policy_group_name source_snapshot
               zbc src dst c in
    r.1 = Raise e /\ remote r.2 = rest /\
    length (sent r.2) = (length (sent c) + S (length pages))%nat.
Proof.
  induction pages as [|p pages IH]; intros n zbc src dst c e rest Hn Hs;
    (destruct n as [|n]; [simpl in Hn; lia|]); cbn [Clone.clone_calls].
  - destruct (if (Clone.z_limit <? zbc)%Z then _ else _) as [b zbc'].
    destruct (Clone.clone_create_element _ _ _ _ _ _ _ _ _) as [el [s d]].
    unfold kbind, invoke_successfully. rewrite Hs. simpl.
    split; [done|]. split; [done|]. rewrite length_app. simpl. lia.
  - destruct (if (Clone.z_limit <? zbc)%Z then _ else _) as [b zbc'].
    destruct (Clone.clone_create_element _ _ _ _ _ _ _ _ _) as [el [s d]].
    unfold kbind, invoke_successfully. rewrite Hs. simpl.
    set (c1 := Link _ _).
    destruct (IH n zbc' s d c1 e rest) as (H1 & H2 & H3);
      [simpl in Hn; lia|reflexivity|].
    split; [done|]. split; [done|]. rewrite H3. subst c1. simpl.
    rewrite length_app. simpl. lia.
Qed.

(** X5: when a call of [clone_lun] fails, the error leaves [clone_lun] as
    it came, after the calls before it were made and answered and without
    any call after it: what was cloned so far stays cloned, and the rest
    is not attempted.  The calls [clone_lun] has to make are one when the
    rounded quotient of [block_count] by [2^29] is zero, as for the default
    [block_count] of zero, and as many as that quotient otherwise; any of
    them may be the one that fails. *)
Theorem clone_lun_stops_at_failure volume name new_name space_reserved
    qos_policy_group_name source_snapshot src dst bc pages e rest
    (c : link (list response)) :
  Clone.float_exact bc ->
  Z.of_nat (length pages)
    < (if (Clone.ceil_div bc (2 ^ 29) =? 0)%Z then 1
       else Clone.ceil_div bc (2 ^ 29)) ->
  remote c = map inr pages ++ inl e :: rest ->
  let r := Clone.clone_lun Clone.replaying volume name new_name space_reserved
             qos_policy_group_name src dst bc source_snapshot c in
  r.1 = Raise e /\
  remote r.2 = rest /\
  length (Clone.requests_since c r.2) = S (length pages).
Proof.
  intros _ Hlen Hs r. subst r. unfold Clone.clone_lun.
  change Clone.z_limit with (2 ^ 29).
  destruct (clone_calls_failure volume name new_name space_reserved
              qos_policy_group_name source_snapshot pages
              (Z.to_nat (if (Clone.ceil_div bc (2 ^ 29) =? 0)%Z then 1
                         else Clone.ceil_div bc (2 ^ 29)))
              bc src dst c e rest)
    as (H1 & H2 & H3); [lia|done|].
  split; [done|]. split; [done|].
  unfold Clone.requests_since. rewrite length_map, length_drop, H3. lia.
Qed.

Lemma clone_lun_within_limits_sample :
  Forall (fun el =>
            (length (Clone.block_ranges_of el) <= 32)%nat /\
            Forall (fun r => exists s d n,
                      r = Some (s, d, n) /\ 0 < n <= 2 ^ 24)
              (Clone.block_ranges_of el))
    (Clone.requests_since (Clone.fresh_link tt)
       (Clone.clone_lun (Clone.obliging Clone.passed) "vol1" "lun1" "lun1_clone"
          "true" None 0 0 Clone.many_blocks None (Clone.fresh_link tt)).2).
Proof.
  apply (clone_lun_within_limits (Clone.obliging Clone.passed) "vol1" "lun1"
           "lun1_clone" "true" None None 0 0 Clone.many_blocks
           (Clone.fresh_link tt)).
  unfold Clone.float_exact, Clone.many_blocks. lia.
Defined.

Lemma clone_lun_covers_blocks_sample :
  let r := Clone.clone_lun (Clone.obliging Clone.passed) "vol1" "lun1"
             "lun1_clone" "true" None 100 200 Clone.many_blocks None
             (Clone.fresh_link tt) in
  r.1 = Return tt /\
  exists rs,
    concat (map Clone.block_ranges_of
              (Clone.requests_since (Clone.fresh_link tt) r.2)) = map Some rs /\
    Clone.tiles 100 200 rs /\
    Clone.blocks_of rs = Clone.many_blocks.
Proof.
  apply (clone_lun_covers_blocks (Clone.obliging Clone.passed) "vol1" "lun1"
           "lun1_clone" "true" None None 100 200 Clone.many_blocks
           (Clone.fresh_link tt)).
  - unfold Clone.float_exact, Clone.many_blocks. lia.
  - unfold Clone.many_blocks. lia.
  - intros. reflexivity.
Defined.

Lemma clone_lun_number_of_calls_sample :
  let calls_made :=
    Z.of_nat (length (Clone.requests_since (Clone.fresh_link tt)
      (Clone.clone_lun (Clone.obliging Clone.passed) "vol1" "lun1" "lun1_clone"
         "true" None 0 0 Clone.many_blocks None (Clone.fresh_link tt)).2)) in
  calls_made = Z.max 1 (Clone.ceil_div Clone.many_blocks (2 ^ 29)) /\
  (calls_made - 1) * 2 ^ 29 < Z.max 1 Clone.many_blocks <= calls_made * 2 ^ 29.
Proof.
  apply (clone_lun_number_of_calls (Clone.obliging Clone.passed) "vol1" "lun1"
           "lun1_clone" "true" None None 0 0 Clone.many_blocks
           (Clone.fresh_link tt)).
  - unfold Clone.float_exact, Clone.many_blocks. lia.
  - unfold Clone.many_blocks. lia.
  - intros. reflexivity.
Defined.

Lemma clone_lun_without_blocks_sample :
  exists el,
    Clone.requests_since (Clone.fresh_link tt)
      (Clone.clone_lun (Clone.obliging Clone.passed) "vol1" "lun1" "lun1_clone"
         "true" (Some "qos1") 7 9 0 (Some "snap1") (Clone.fresh_link tt)).2
      = [el] /\
    Na.get_child_by_name el "block-ranges" = None /\
    el = (Clone.clone_create_element "vol1" "lun1" "lun1_clone" "true"
            (Some "qos1") (Some "snap1") 0 0 0).1.
Proof.
  apply (clone_lun_without_blocks (Clone.obliging Clone.passed) "vol1" "lun1"
           "lun1_clone" "true" (Some "qos1") (Some "snap1") 7 9 0
           (Clone.fresh_link tt)).
  - unfold Clone.float_exact. lia.
  - lia.
Defined.

Lemma clone_lun_stops_at_failure_sample :
  (let c := Clone.fresh_link [inr Clone.passed; inl Sample.timeout; inr Clone.passed] in
   let r := Clone.clone_lun Clone.replaying "vol1" "lun1" "lun1_clone" "true"
              None 0 0 (3 * 2 ^ 29) None c in
   r.1 = Raise Sample.timeout /\
   remote r.2 = [inr Clone.passed] /\
   length (Clone.requests_since c r.2) = S (length [Clone.passed])) /\
  (let c := Clone.fresh_link [inl Sample.timeout; inr Clone.passed] in
   let r := Clone.clone_lun Clone.replaying "vol1" "lun1" "lun1_clone" "true"
              None 0 0 0 None c in
   r.1 = Raise Sample.timeout /\
   remote r.2 = [inr Clone.passed] /\
   length (Clone.requests_since c r.2) = S (length (@nil NaElement))).
Proof.
  split.
  - apply (clone_lun_stops_at_failure "vol1" "lun1" "lun1_clone" "true" None
             None 0 0 (3 * 2 ^ 29) [Clone.passed] Sample.timeout
             [inr Clone.passed]
             (Clone.fresh_link
                [inr Clone.passed; inl Sample.timeout; inr Clone.passed])).
    + unfold Clone.float_exact. lia.
    + vm_compute. reflexivity.
    + reflexivity.
  - apply (clone_lun_stops_at_failure "vol1" "lun1" "lun1_clone" "true" None
             None 0 0 0 [] Sample.timeout [inr Clone.passed]
             (Clone.fresh_link [inl Sample.timeout; inr Clone.passed])).
    + unfold Clone.float_exact. lia.
    + vm_compute. reflexivity.
    + reflexivity.
Defined.

(** The calls for [2^29 + 2^24 + 5] blocks from block 100 to block 200:
    one with 32 ranges of [2^24] blocks, one with a range of [2^24] and a
    range of 5. *)
Lemma clone_lun_many_blocks :
  map Clone.block_ranges_of
    (Clone.requests_since (Clone.fresh_link tt)
       (Clone.clone_lun (Clone.obliging Clone.passed) "vol1" "lun1" "lun1_clone"
          "true" None 100 200 Clone.many_blocks None (Clone.fresh_link tt)).2)
  = [map Some (Clone.ranges_from 100 200 (repeat (2 ^ 24) 32));
     [Some (100 + 2 ^ 29, 200 + 2 ^ 29, 2 ^ 24);
      Some (100 + 2 ^ 29 + 2 ^ 24, 200 + 2 ^ 29 + 2 ^ 24, 5)]].
Proof. vm_compute. reflexivity. Qed.

(** ** Properties of [_has_records] *)

(** X6: [_has_records] never misses a count: whenever the record count of
    a result reads as an integer other than zero, [_has_records] says
    there are records.  (It also says so for counts such as ["00"], which
    read as zero.) *)
Theorem has_records_of_nonzero_count p n :
  declared_count p = Some n ->
  n <> 0 ->
  _has_records p = true.
Proof.
  unfold declared_count, num_records_of, _has_records.
  destruct (Na.get_child_content p "num-records") as [txt|]; [|done].
  intros Htxt Hn.
  destruct (String.eqb_spec txt "") as [->|_]; [done|].
  destruct (String.eqb_spec "0" txt) as [<-|_]; [|done].
  vm_compute in Htxt. congruence.
Qed.

Lemma has_records_of_nonzero_count_sample :
  _has_records Sample.page2 = true /\
  _has_records (mk_page (Some []) None (Some "00")) = true /\
  _has_records Sample.no_records = false.
Proof.
  split; [|split; reflexivity].
  apply (has_records_of_nonzero_count Sample.page2 3); [reflexivity|lia].
Defined.

(** ** Properties of [_check_cluster_api_legacy] *)

Section LegacyCheck.

Context {FS : Type}.
Variable transport : FS -> string -> gmap string pyval -> bool -> FS * response.
Variables EAPINOTFOUND EAPIPRIVILEGE : string.

Lemma append_empty_r s : s +:+ "" = s.
Proof.
  induction s as [|a s IH]; [done|].
  change (String a (s +:+ "") = String a s). by rewrite IH.
Qed.

Lemma append_assoc_r s t u : (s +:+ t) +:+ u = s +:+ (t +:+ u).
Proof.
  induction s as [|a s IH]; [done|].
  change (String a ((s +:+ t) +:+ u) = String a (s +:+ (t +:+ u))).
  by rewrite IH.
Qed.

Lemma ends_with_suffix suffix s :
  ends_with suffix s = true -> exists p, s = p +:+ suffix.
Proof.
  induction s as [|a s IH]; cbn [ends_with].
  - rewrite orb_false_r. intros H. apply String.eqb_eq in H. by exists "".
  - intros H. apply orb_true_iff in H as [H|H].
    + apply String.eqb_eq in H. by exists "".
    + destruct (IH H) as [p ->]. by exists (String a p).
Qed.

Lemma chomp_spec s :
  s = chomp s \/ s = chomp s +:+ String newline "".
Proof.
  induction s as [|a s IH]; [by left|].
  destruct s as [|b s].
  - simpl. destruct (Ascii.eqb_spec a newline) as [->|_]; [by right|by left].
  - change (chomp (String a (String b s))) with (String a (chomp (String b s))).
    set (t := String b s) in *.
    destruct IH as [IH|IH]; [left|right].
    + by rewrite <- IH.
    + change (String a (chomp t) +:+ String newline "")
        with (String a (chomp t +:+ String newline "")).
      by rewrite <- IH.
Qed.

(** What the pattern asks of a name. *)
Lemma getter_name_spec api :
  getter_name api = true ->
  exists p suffix tail,
    api = p +:+ suffix +:+ tail /\
    (suffix = "-get" \/ suffix = "-get-iter" \/ suffix = "-list-info") /\
    (tail = "" \/ tail = String newline "") /\
    has_newline p = false.
Proof.
  unfold getter_name. intros H. apply andb_true_iff in H as [Hnl Hsuf].
  apply negb_true_iff in Hnl.
  assert (Hp : forall p suffix, chomp api = p +:+ suffix -> has_newline p = false).
  { intros p suffix E. rewrite E in Hnl. clear - Hnl.
    induction p as [|a p IH]; [done|]. simpl in *.
    apply orb_false_iff in Hnl as [-> Hnl]. by apply IH. }
  assert (Hmk : forall suffix,
             ends_with suffix (chomp api) = true ->
             suffix = "-get" \/ suffix = "-get-iter" \/ suffix = "-list-info" ->
             exists p suffix tail,
               api = p +:+ suffix +:+ tail /\
               (suffix = "-get" \/ suffix = "-get-iter" \/ suffix = "-list-info") /\
               (tail = "" \/ tail = String newline "") /\
               has_newline p = false).
  { intros suffix He Hs. destruct (ends_with_suffix _ _ He) as [p Ep].
    exists p, suffix.
    destruct (chomp_spec api) as [E|E]; rewrite Ep in E.
    - exists "".
      split; [|split; [exact Hs|split; [by left|by apply (Hp p suffix)]]].
      by rewrite E, append_empty_r.
    - exists (String newline "").
      split; [|split; [exact Hs|split; [by right|by apply (Hp p suffix)]]].
      by rewrite E, append_assoc_r. }
  apply orb_true_iff in Hsuf as [Hsuf|Hsuf];
    [apply orb_true_iff in Hsuf as [Hsuf|Hsuf]|]; eapply Hmk; eauto.
Qed.

(** X7: [_check_cluster_api_legacy] calls the API it tests, and it never
    calls one whose name does not end in [-get], [-get-iter] or
    [-list-info]: for any other name it raises [ValueError] and sends
    nothing. *)
Theorem legacy_check_calls_getters_only api (w : world FS) :
  let r := _check_cluster_api_legacy transport EAPINOTFOUND EAPIPRIVILEGE api w in
  (getter_name api = false -> r = (Raise ValueError, w)) /\
  Forall (fun c =>
            call_api c = api /\
            exists p suffix tail,
              api = p +:+ suffix +:+ tail /\
              (suffix = "-get" \/ suffix = "-get-iter" \/ suffix = "-list-info") /\
              (tail = "" \/ tail = String newline "") /\
              has_newline p = false)
    (drop (length (calls w)) (calls r.2)).
Proof.
  intros r. subst r. unfold _check_cluster_api_legacy.
  destruct (getter_name api) eqn:Hg; simpl.
  - split; [done|].
    match goal with |- Forall ?P _ => set (Q := P) end.
    assert (Hone : forall cs c,
              cs = calls w ++ [c] -> call_api c = api ->
              Forall Q (drop (length (calls w)) cs)).
    { intros cs c Hc Ha. rewrite Hc, drop_app_length.
      constructor; [|constructor]. split; [done|]. by apply getter_name_spec. }
    unfold bind at 1. unfold alloc at 1. unfold except_NaApiError, bind,
      send_request. simpl.
    destruct (transport (server w) api _ false) as [s' [e|page]]; simpl.
    + destruct e; try (by eapply Hone).
      destruct (_ || _); by eapply Hone.
    + by eapply Hone.
  - split; [done|]. unfold raise. simpl. rewrite drop_all. constructor.
Qed.

(** X8: what [_check_cluster_api_legacy] answers for a getter: [True]
    when the call succeeds, [False] when it fails with the error code for
    a missing API or for missing privileges, and [True] again when it
    fails with any other API error; an exception of another kind is
    raised on. *)
Theorem legacy_check_answer api (w : world FS) s' resp :
  getter_name api = true ->
  transport (server w) api ∅ false = (s', resp) ->
  (_check_cluster_api_legacy transport EAPINOTFOUND EAPIPRIVILEGE api w).1 =
    match resp with
    | inr _ => Return true
    | inl (NaApiError code _) =>
        Return (negb (String.eqb code EAPIPRIVILEGE
                      || String.eqb code EAPINOTFOUND))
    | inl e => Raise e
    end.
Proof.
  intros Hg Ht. unfold _check_cluster_api_legacy. rewrite Hg. simpl.
  unfold bind at 1. unfold alloc at 1. unfold except_NaApiError, bind,
    send_request. simpl. rewrite lookup_insert_eq. simpl. rewrite Ht.
  destruct resp as [e|page]; [|done].
  destruct e; try done. simpl. by destruct (_ || _).
Qed.

End LegacyCheck.

(** A test of [volume-get-iter] that fails with an API error of some
    other code: the API counts as available. *)
Lemma legacy_check_answer_sample :
  (_check_cluster_api_legacy scripted "13005" "13003" "volume-get-iter"
     (World ∅ [inl Sample.timeout] [])).1 =
    match @inl exn NaElement Sample.timeout with
    | inr _ => Return true
    | inl (NaApiError code _) =>
        Return (negb (String.eqb code "13003" || String.eqb code "13005"))
    | inl e => Raise e
    end.
Proof.
  apply (legacy_check_answer scripted "13005" "13003" "volume-get-iter"
           (World ∅ [inl Sample.timeout] []) [] (inl Sample.timeout));
    reflexivity.
Defined.

Lemma legacy_check_samples :
  getter_name "volume-get-iter" = true /\
  getter_name "system-get-version" = false /\
  getter_name "volume-destroy" = false /\
  getter_name "lun-list-info" = true /\
  getter_name "-get" = true /\
  (_check_cluster_api_legacy scripted "13005" "13003" "volume-destroy"
     (World ∅ [inr Sample.no_records] []))
  = (Raise ValueError, World ∅ [inr Sample.no_records] []).
Proof. repeat split. Qed.

(** ** Properties of the requests through [send_request] *)

Section RequestFacts.

Context {FS : Type}.
Variable transport : FS -> string -> gmap string pyval -> bool -> FS * response.

(** A dictionary written down and sent. *)
Lemma alloc_send d api tun (w : world FS) :
  bind (alloc d) (fun a => send_request transport api a tun) w =
    let l := fresh (dom (heap w)) in
    let sr := transport (server w) api d tun in
    let w1 := World (<[l := d]> (heap w)) sr.1
                (calls w ++ [Call api l d tun sr.2]) in
    match sr.2 with
    | inr page => (Return page, w1)
    | inl e => (Raise e, w1)
    end.
Proof.
  unfold bind, alloc, send_request. simpl. rewrite lookup_insert_eq. simpl.
  by destruct (transport (server w) api d tun) as [s' [e|page]].
Qed.

End RequestFacts.

Lemma mark_for_deletion_unfold {FS}
    (transport : FS -> string -> gmap string pyval -> bool -> FS * response)
    vserver info (w : world FS) :
  mark_qos_policy_group_for_deletion transport vserver (Some info) w =
    match spec info with
    | Some sp =>
        let sr := transport (server w) "qos-policy-group-rename"
                    (rename_args (policy_name sp)) false in
        let w1 := World (<[fresh (dom (heap w)) := rename_args (policy_name sp)]>
                           (heap w)) sr.1
                    (calls w ++
                       [Call "qos-policy-group-rename" (fresh (dom (heap w)))
                          (rename_args (policy_name sp)) false sr.2]) in
        match sr.2 with
        | inl (NaApiError _ _) | inr _ =>
            remove_unused_qos_policy_groups transport vserver w1
        | inl e => (Raise e, w1)
        end
    | None => remove_unused_qos_policy_groups transport vserver w
    end.
Proof.
  unfold mark_qos_policy_group_for_deletion. destruct (spec info) as [sp|].
  - unfold bind at 1. unfold except_NaApiError at 1. unfold bind at 1.
    unfold qos_policy_group_rename. rewrite alloc_send. cbv zeta.
    fold (rename_args (policy_name sp)).
    destruct (transport (server w) "qos-policy-group-rename" _ false)
      as [s' [e|page]]; simpl; [|done].
    by destruct e.
  - reflexivity.
Qed.

Lemma remove_unused_spec {FS}
    (transport : FS -> string -> gmap string pyval -> bool -> FS * response)
    vserver (w1 : world FS) :
  let r := remove_unused_qos_policy_groups transport vserver w1 in
  (r.1 = Return tt \/
   exists e, r.1 = Raise e /\ forall code message, e <> NaApiError code message)
  /\ exists l2 r2,
       calls r.2 = calls w1 ++
         [Call "qos-policy-group-delete-iter" l2
            (remove_unused_args vserver) false r2].
Proof.
  unfold remove_unused_qos_policy_groups.
  unfold bind at 1 2. unfold alloc at 1 2. unfold except_NaApiError, bind,
    send_request. simpl. rewrite lookup_insert_eq. simpl.
  destruct (transport (server w1) "qos-policy-group-delete-iter" _ false)
    as [s' [e|page]]; simpl.
  - destruct e; simpl; (split; [|by eauto]); try (by left);
      right; eexists; (split; [reflexivity|]); intros; discriminate.
  - split; [by left|by eauto].
Qed.

(** X9: [mark_qos_policy_group_for_deletion] renames the policy group of
    the [spec] to [deleted_cinder_] followed by its name, and then asks
    for all policy groups so named to be deleted.  An API error of the
    renaming does not stop it: the deletion is asked for all the same.  No
    API error of either request leaves the method. *)
Theorem mark_for_deletion_outlives_api_errors {FS}
    (transport : FS -> string -> gmap string pyval -> bool -> FS * response)
    vserver info (w : world FS) :
  let r := mark_qos_policy_group_for_deletion transport vserver (Some info) w in
  (r.1 = Return tt \/
   exists e, r.1 = Raise e /\ forall code message, e <> NaApiError code message)
  /\
  match spec info with
  | Some sp =>
      let sr := transport (server w) "qos-policy-group-rename"
                  (rename_args (policy_name sp)) false in
      match sr.2 with
      | inl (NaApiError _ _) | inr _ =>
          exists l1 l2 r2,
            calls r.2 = calls w ++
              [Call "qos-policy-group-rename" l1
                 (rename_args (policy_name sp)) false sr.2;
               Call "qos-policy-group-delete-iter" l2
                 (remove_unused_args vserver) false r2]
      | inl e =>
          r.1 = Raise e /\
          exists l1,
            calls r.2 = calls w ++
              [Call "qos-policy-group-rename" l1
                 (rename_args (policy_name sp)) false sr.2]
      end
  | None =>
      exists l2 r2,
        calls r.2 = calls w ++
          [Call "qos-policy-group-delete-iter" l2
             (remove_unused_args vserver) false r2]
  end.
Proof.
  intros r. subst r. rewrite mark_for_deletion_unfold.
  destruct (spec info) as [sp|]; [|apply remove_unused_spec].
  cbv zeta.
  destruct (transport (server w) "qos-policy-group-rename" _ false)
    as [s' resp]. simpl.
  set (w1 := World _ _ _).
  assert (Hgo :
    let r := remove_unused_qos_policy_groups transport vserver w1 in
    (r.1 = Return tt \/
     exists e, r.1 = Raise e /\ forall code message, e <> NaApiError code message)
    /\ exists l1 l2 r2,
         calls r.2 = calls w ++
           [Call "qos-policy-group-rename" l1
              (rename_args (policy_name sp)) false resp;
            Call "qos-policy-group-delete-iter" l2
              (remove_unused_args vserver) false r2]).
  { destruct (remove_unused_spec transport vserver w1)
      as (Hout & l2 & r2 & Hcalls).
    split; [exact Hout|]. exists (fresh (dom (heap w))), l2, r2.
    rewrite Hcalls. subst w1. simpl. by rewrite <- app_assoc. }
  destruct resp as [e|page]; [|exact Hgo].
  destruct e; try exact Hgo;
    (split; [right; eexists; (split; [reflexivity|]); intros; discriminate|]);
    (split; [reflexivity|]); by eexists.
Qed.

(** The renaming fails with an API error; the deletion is asked for. *)
Lemma mark_for_deletion_sample :
  let r := mark_qos_policy_group_for_deletion scripted (PStr "vs1")
             (Some (QosInfo None (Some (QosSpec "openstack-vol1" "1000IOPS"))))
             (World ∅ [inl Sample.timeout; inr Sample.no_records] []) in
  r.1 = Return tt /\
  map call_api (calls r.2)
    = ["qos-policy-group-rename"; "qos-policy-group-delete-iter"] /\
  map call_args (calls r.2)
    = [ {[ "policy-group-name" := PStr "openstack-vol1";
           "new-name" := PStr "deleted_cinder_openstack-vol1" ]};
        remove_unused_args (PStr "vs1") ].
Proof. cbv zeta. repeat split; vm_compute; reflexivity. Qed.

(** ** Properties of [get_node_for_aggregate] *)

(** X10: without an aggregate name [get_node_for_aggregate] sends nothing
    and answers [None].  With one it sends one [aggr-get-iter] request
    for that aggregate; when the request fails with the API error code for
    a missing API it answers [None], every other failure it raises as it
    came; from a page it reads the home node of the first aggregate, and
    [None] when the page reports no records. *)
Theorem get_node_for_aggregate_answer {FS}
    (transport : FS -> string -> gmap string pyval -> bool -> FS * response)
    EAPINOTFOUND (w : world FS) :
  get_node_for_aggregate transport EAPINOTFOUND None w = (Return None, w) /\
  get_node_for_aggregate transport EAPINOTFOUND (Some "") w = (Return None, w) /\
  forall a rest,
    let aggregate_name := String a rest in
    let sr := transport (server w) "aggr-get-iter"
                (aggregate_args aggregate_name) false in
    let r := get_node_for_aggregate transport EAPINOTFOUND
               (Some aggregate_name) w in
    r.1 = match sr.2 with
          | inr page => home_of page
          | inl (NaApiError code message) =>
              if String.eqb code EAPINOTFOUND then Return None
              else Raise (NaApiError code message)
          | inl e => Raise e
          end /\
    exists l,
      calls r.2 = calls w ++
        [Call "aggr-get-iter" l (aggregate_args aggregate_name) false sr.2].
Proof.
  split; [done|]. split; [done|]. intros a rest aggregate_name sr r.
  assert (Hr : r =
    let l := fresh (dom (heap w)) in
    let w1 := World (<[l := aggregate_args aggregate_name]> (heap w)) sr.1
                (calls w ++ [Call "aggr-get-iter" l
                               (aggregate_args aggregate_name) false sr.2]) in
    (match sr.2 with
     | inr page => home_of page
     | inl (NaApiError code message) =>
         if String.eqb code EAPINOTFOUND then Return None
         else Raise (NaApiError code message)
     | inl e => Raise e
     end, w1)).
  { subst r sr aggregate_name.
    unfold get_node_for_aggregate, except_NaApiError, _get_aggregates, bind,
      alloc, setitem, send_request, ret, raise, home_name_attributes.
    cbn [String.concat heap server calls fst snd].
    rewrite !alter_insert_eq, lookup_insert_eq. cbn [from_option id].
    change (<["desired-attributes" := _]> (<["query" := _]> ∅))
      with (aggregate_args (String a rest)).
    destruct (transport (server w) "aggr-get-iter"
                (aggregate_args (String a rest)) false) as [s' [e|page]].
    - cbn [fst snd]. destruct e as [| | | |code message|]; try reflexivity.
      by destruct (String.eqb code EAPINOTFOUND).
    - cbn [fst snd]. unfold home_of.
      destruct (_has_records page); cbn [negb]; [|reflexivity].
      destruct (Na.get_child_by_name page "attributes-list") as [al|];
        [|reflexivity].
      by destruct (Na.get_children al). }
  rewrite Hr. cbv zeta. simpl. split; [done|]. by eexists.
Qed.

Lemma get_node_for_aggregate_sample :
  let page :=
    mk_page
      (Some [NaElem "aggr-attributes" None
               [NaElem "aggregate-name" (Some "aggr1") [];
                NaElem "aggr-ownership-attributes" None
                  [NaElem "home-name" (Some "node1") []]]])
      None (Some "1") in
  (get_node_for_aggregate scripted "13005" (Some "aggr1")
     (World ∅ [inr page] [])).1 = Return (Some "node1") /\
  (get_node_for_aggregate scripted "13005" (Some "aggr1")
     (World ∅ [inl (NaApiError "13005" "not found")] [])).1 = Return None /\
  (get_node_for_aggregate scripted "13005" (Some "aggr1")
     (World ∅ [inl Sample.timeout] [])).1 = Raise Sample.timeout /\
  (get_node_for_aggregate scripted "13005" (Some "aggr1")
     (World ∅ [inr (mk_page None None (Some "1"))] [])).1 = Raise AttributeError.
Proof. cbv zeta. repeat split; vm_compute; reflexivity. Qed.

(** ** Properties of [get_lun_list] *)

Section LunListFacts.

Context {FS : Type}.
Variable invoke : FS -> NaElement -> bool -> FS * response.
Variable vserver_name : option string.
Variable _convert_entity_refs : string -> string.

Lemma extend_luns_listable luns p (c : link FS) :
  listable p = true ->
  extend_luns luns p c = (Return (luns ++ counted_items p), c).
Proof.
  unfold listable, extend_luns, counted_items, declared_count, num_records_of,
    has_attributes_list, items_of, Na.get_child_content, PyInt.int.
  destruct (Na.get_child_by_name p "num-records") as [cn|].
  2:{ intros _; unfold kret; by rewrite app_nil_r. }
  destruct (Na.get_content cn) as [txt|]; [|done].
  destruct (PyInt.of_text txt) as [n|]; [|done].
  destruct (Z.leb_spec 1 n) as [Hn|Hn].
  - destruct (Z.ltb_spec n 1) as [|_]; [lia|]. simpl.
    by destruct (Na.get_child_by_name p "attributes-list").
  - intros _. unfold kret. by rewrite app_nil_r.
Qed.

(** One turn of the loop on a page it can take. *)
Lemma get_lun_list_turn fuel luns tag (c : link FS) s' p :
  invoke (remote c) (lun_get_iter vserver_name _convert_entity_refs tag) true
    = (s', inr p) ->
  listable p = true ->
  get_lun_list_loop invoke vserver_name _convert_entity_refs (S fuel) luns tag c
  = let c1 := Link s' (sent c ++
                 [(lun_get_iter vserver_name _convert_entity_refs tag, true)]) in
    match next_tag_of p with
    | None => (Return (luns ++ counted_items p), c1)
    | Some t =>
        get_lun_list_loop invoke vserver_name _convert_entity_refs fuel
          (luns ++ counted_items p) (Some t) c1
    end.
Proof.
  intros Hi Hp. cbn [get_lun_list_loop].
  unfold kbind at 1. unfold invoke_successfully. rewrite Hi.
  unfold kbind. rewrite (extend_luns_listable _ _ _ Hp).
  unfold next_tag_of. by destruct (Na.get_child_content p "next-tag").
Qed.

(** X12: a page whose tag is the empty text does not end [get_lun_list],
    and the request that follows it carries no tag: it is the request for
    the first page again.  Against a connection that answers such a page
    every time the listing starts over for as long as it is let run. *)
Theorem get_lun_list_restarts_on_empty_tag fuel (c : link FS) :
  (forall s e t, restarts (invoke s e t).2 = true) ->
  let r := get_lun_list invoke vserver_name _convert_entity_refs fuel c in
  r.1 = OutOfFuel /\
  Clone.requests_since c r.2
    = repeat (lun_get_iter vserver_name _convert_entity_refs None) fuel.
Proof.
  intros Hall r. subst r. unfold get_lun_list.
  assert (Hgen : forall fuel luns tag (c1 : link FS),
            truthy tag = false ->
            let r := get_lun_list_loop invoke vserver_name _convert_entity_refs
                       fuel luns tag c1 in
            r.1 = OutOfFuel /\
            sent r.2 = sent c1 ++
              repeat (lun_get_iter vserver_name _convert_entity_refs None, true)
                fuel).
  { clear c. intros n. induction n as [|n IH]; intros luns tag c1 Htag.
    - simpl. by rewrite app_nil_r.
    - assert (Hreq : lun_get_iter vserver_name _convert_entity_refs tag
                     = lun_get_iter vserver_name _convert_entity_refs None)
        by (unfold lun_get_iter; by rewrite Htag).
      specialize (Hall (remote c1)
                    (lun_get_iter vserver_name _convert_entity_refs tag) true).
      destruct (invoke (remote c1) _ true) as [s' [e|p]] eqn:Hi; [done|].
      simpl in Hall. apply andb_true_iff in Hall as [Hp Hempty].
      cbv zeta. rewrite (get_lun_list_turn n luns tag c1 s' p Hi Hp). cbv zeta.
      destruct (next_tag_of p) as [[|a t]|]; try done.
      destruct (IH (luns ++ counted_items p) (Some "")
                  (Link s' (sent c1 ++
                     [(lun_get_iter vserver_name _convert_entity_refs tag, true)]))
                  eq_refl) as [H1 H2].
      split; [done|]. rewrite H2. simpl. rewrite Hreq.
      by rewrite <- app_assoc. }
  destruct (Hgen fuel [] None c eq_refl) as [H1 H2].
  split; [done|]. unfold Clone.requests_since.
  rewrite H2, drop_app_length. clear. induction fuel; simpl; by f_equal.
Qed.

End LunListFacts.

Section LunListReplay.

Variable vserver_name : option string.
Variable _convert_entity_refs : string -> string.

Abbreviation lun_loop :=
  (get_lun_list_loop Clone.replaying vserver_name _convert_entity_refs).
Abbreviation lun_request := (lun_get_iter vserver_name _convert_entity_refs).

(** The loop over pages it can take, the last of which has no tag. *)
Lemma get_lun_list_loop_replay ps :
  forall last fuel luns tag (c : link (list response)) rest,
    lun_pages_ok ps last = true ->
    (length ps < fuel)%nat ->
    remote c = map inr (ps ++ [last]) ++ rest ->
    exists c',
      lun_loop fuel luns tag c
        = (Return (luns ++ concat (map counted_items (ps ++ [last]))), c') /\
      remote c' = rest /\
      sent c' = sent c ++
        map Clone.with_tunnel (map lun_request (tag :: map next_tag_of ps)).
Proof.
  induction ps as [|p ps IH]; intros last fuel luns tag c rest Hok Hfuel Hs;
    (destruct fuel as [|fuel]; [simpl in Hfuel; lia|]);
    unfold lun_pages_ok in Hok; simpl in Hok.
  - apply andb_true_iff in Hok as [Hl Ht]. apply negb_true_iff in Ht.
    unfold has_tag in Ht.
    erewrite get_lun_list_turn; [|by rewrite Hs|done]. cbv zeta.
    destruct (next_tag_of last); [done|].
    simpl. rewrite app_nil_r. eexists. split; [reflexivity|].
    split; reflexivity.
  - apply andb_true_iff in Hok as [Hok Ht].
    apply andb_true_iff in Hok as [Hok Hl].
    apply andb_true_iff in Hok as [Hp Hps].
    apply andb_true_iff in Hp as [Hp Hpt]. unfold has_tag in Hpt.
    erewrite get_lun_list_turn; [|by rewrite Hs|done]. cbv zeta.
    destruct (next_tag_of p) as [t|] eqn:Et; [|done].
    match goal with
    | |- context [get_lun_list_loop _ _ _ fuel _ _ ?C] => set (c1 := C)
    end.
    destruct (IH last fuel (luns ++ counted_items p) (Some t) c1 rest)
      as (c' & Hrun & Hrem & Hsent).
    + unfold lun_pages_ok. by rewrite Hps, Hl, Ht.
    + simpl in Hfuel. lia.
    + reflexivity.
    + exists c'. rewrite Hrun. split; [|split; [done|]].
      * simpl. by rewrite <- app_assoc.
      * rewrite Hsent. simpl. rewrite Et. by rewrite <- app_assoc.
Qed.

(** X11: [get_lun_list] fetches page after page until a page comes
    without a tag, and returns the records of the pages that count at
    least one record, page after page; a page that counts no record or
    has no count adds nothing, whatever it carries.  The first request
    has no tag, every later one the tag of the page before it. *)
Theorem get_lun_list_collects ps last fuel (c : link (list response)) rest :
  lun_pages_ok ps last = true ->
  (length ps < fuel)%nat ->
  remote c = map inr (ps ++ [last]) ++ rest ->
  exists c',
    get_lun_list Clone.replaying vserver_name _convert_entity_refs fuel c
      = (Return (concat (map counted_items (ps ++ [last]))), c') /\
    remote c' = rest /\
    Clone.requests_since c c'
      = map lun_request (None :: map next_tag_of ps).
Proof.
  intros Hok Hfuel Hs.
  destruct (get_lun_list_loop_replay ps last fuel [] None c rest Hok Hfuel Hs)
    as (c' & Hrun & Hrem & Hsent).
  exists c'. split; [exact Hrun|]. split; [done|].
  unfold Clone.requests_since. rewrite Hsent, drop_app_length, map_map.
  apply map_id.
Qed.

End LunListReplay.

Lemma get_lun_list_collects_sample :
  let skipped := mk_page (Some [Sample.disk "x"]) (Some "next_tag_2") (Some "0") in
  exists c',
    get_lun_list Clone.replaying (Some "vs1") (fun s => s) 3
      (Clone.fresh_link [inr Sample.page1; inr skipped; inr Sample.page3])
      = (Return (concat (map counted_items
                           ([Sample.page1; skipped] ++ [Sample.page3]))), c') /\
    remote c' = [] /\
    Clone.requests_since
      (Clone.fresh_link [inr Sample.page1; inr skipped; inr Sample.page3]) c'
      = map (lun_get_iter (Some "vs1") (fun s => s))
          (None :: map next_tag_of [Sample.page1; skipped]).
Proof.
  cbv zeta.
  apply (get_lun_list_collects (Some "vs1") (fun s => s)
           [Sample.page1;
            mk_page (Some [Sample.disk "x"]) (Some "next_tag_2") (Some "0")]
           Sample.page3 3
           (Clone.fresh_link
              [inr Sample.page1;
               inr (mk_page (Some [Sample.disk "x"]) (Some "next_tag_2")
                      (Some "0"));
               inr Sample.page3]) []);
    [reflexivity | simpl; lia | reflexivity].
Defined.

Lemma get_lun_list_restarts_sample :
  let r := get_lun_list (Clone.obliging Sample.empty_tag) (Some "vs1")
             (fun s => s) 5 (Clone.fresh_link tt) in
  r.1 = OutOfFuel /\
  Clone.requests_since (Clone.fresh_link tt) r.2
    = repeat (lun_get_iter (Some "vs1") (fun s => s) None) 5.
Proof.
  apply (get_lun_list_restarts_on_empty_tag (Clone.obliging Sample.empty_tag)
           (Some "vs1") (fun s => s) 5 (Clone.fresh_link tt)).
  intros. reflexivity.
Defined.

(** The LUNs of the sample listing, the page that counts none left out. *)
Lemma get_lun_list_of_sample :
  (get_lun_list Clone.replaying (Some "vs1") (fun s => s) 3
     (Clone.fresh_link
        [inr Sample.page1;
         inr (mk_page (Some [Sample.disk "x"]) (Some "next_tag_2") (Some "0"));
         inr Sample.page3])).1
  = Return (map Sample.disk ["a"; "b"; "f"]).
Proof. vm_compute. reflexivity. Qed.

(** ** Properties of [get_snapshot] *)

(** X13: what follows the request of [get_snapshot] gives a snapshot in
    one case only: the result reports no volume error, it reports records,
    and its attributes list holds exactly one snapshot; the snapshot
    returned is read from that one.  A volume error comes first: with one
    reported, nothing else in the result is looked at. *)
Theorem read_snapshot_needs_one_snapshot ESNAPSHOTNOTALLOWED bool_from_string
    result snapshot_name volume_name :
  let r := read_snapshot ESNAPSHOTNOTALLOWED bool_from_string result
             snapshot_name volume_name in
  ((exists snap, r = inr snap) <->
   volume_errors_of result = [] /\ _has_records result = true /\
   length (items_of result) = 1%nat) /\
  (forall snap, r = inr snap ->
     exists info,
       items_of result = [info] /\
       snapshot_name_of snap = Na.get_child_content info "name" /\
       snapshot_volume snap = Na.get_child_content info "volume") /\
  (volume_errors_of result <> [] ->
   exists data,
     r = inl (SnapshotUnavailable data) \/
     r = inl (VolumeBackendAPIException data)).
Proof.
  intros r. subst r.
  unfold read_snapshot, _handle_get_snapshot_return_failure,
    _handle_snapshot_not_found, volume_errors_of, items_of.
  destruct (Na.get_child_by_name result "volume-errors") as [ve|]; simpl.
  - destruct (Na.get_children ve) as [|err errs] eqn:Herrs.
    + destruct (_has_records result); simpl.
      * destruct (Na.get_child_by_name result "attributes-list") as [al|];
          simpl.
        -- destruct (Na.get_children al) as [|i [|j l]]; simpl;
             (split; [split; [intros [snap H]; by inversion H
                             |intros (_ & _ & H); try discriminate H;
                              by eexists]
                     |split; [intros snap H; inversion H; subst;
                              try (by eexists)
                             |done]]).
        -- split; [split; [intros [snap H]; by inversion H
                          |intros (_ & _ & H); discriminate H]
                  |split; [intros snap H; inversion H|done]].
      * split; [split; [intros [snap H]; by inversion H
                       |intros (_ & H & _); discriminate H]
               |split; [intros snap H; inversion H|done]].
    + split; [split; [intros [snap H];
                      destruct (Na.get_child_content err "errno") as [code|];
                      [destruct (String.eqb code ESNAPSHOTNOTALLOWED)|];
                      by inversion H
                     |intros (H & _); discriminate H]|].
      split.
      * intros snap H.
        destruct (Na.get_child_content err "errno") as [code|];
          [destruct (String.eqb code ESNAPSHOTNOTALLOWED)|]; inversion H.
      * intros _.
        destruct (Na.get_child_content err "errno") as [code|];
          [destruct (String.eqb code ESNAPSHOTNOTALLOWED)|]; eauto.
  - destruct (_has_records result); simpl.
    + destruct (Na.get_child_by_name result "attributes-list") as [al|]; simpl.
      * destruct (Na.get_children al) as [|i [|j l]]; simpl;
          (split; [split; [intros [snap H]; by inversion H
                          |intros (_ & _ & H); try discriminate H;
                           by eexists]
                  |split; [intros snap H; inversion H; subst;
                           try (by eexists)
                          |done]]).
      * split; [split; [intros [snap H]; by inversion H
                       |intros (_ & _ & H); discriminate H]
               |split; [intros snap H; inversion H|done]].
    + split; [split; [intros [snap H]; by inversion H
                     |intros (_ & H & _); discriminate H]
             |split; [intros snap H; inversion H|done]].
Qed.

(** A result that reports a record and lists none: the first snapshot is
    asked of an empty list. *)
Lemma read_snapshot_samples :
  let read r := read_snapshot "13023" (fun _ => false) r "snap1" "vol1" in
  let info :=
    NaElem "snapshot-info" None
      [NaElem "name" (Some "snap1") []; NaElem "volume" (Some "vol1") [];
       NaElem "busy" (Some "false") []] in
  read (mk_page (Some []) None (Some "1")) = inl IndexError /\
  read (mk_page (Some [info]) None (Some "0")) = inl (SnapshotNotFound "snap1") /\
  read (mk_page (Some [info; info]) None (Some "2"))
    = inl (VolumeBackendAPIException
             "Could not find unique snapshot snap1 on volume vol1.") /\
  read (mk_page (Some [info]) None (Some "1"))
    = inr (Snapshot (Some "snap1") (Some "vol1") false ∅).
Proof. cbv zeta. repeat split. Qed.
